(** * NexusCoders-Bot: the connection lifecycle of [index.js]

    A shallow embedding of the bot's entry point: the credential bootstrap
    ([processSessionData]), the start-up notification ([sendStartupMessage]),
    the connection manager ([connectToWhatsApp] with its [connection.update]
    listener) and the three listeners that route inbound events to the
    message handler and to the generic event handler.

    The JavaScript module keeps its state in module-level variables and talks
    to the outside world (the Baileys socket, the handlers, the file system,
    the logger, timers, [process.exit]) through calls.  Here the variables
    are a record that is threaded through a small state-and-exception monad,
    and every call to the outside is appended to a trace. *)

From stdpp Require Import base option list strings gmap pretty.
From Stdlib Require Import ZArith Lia.

Local Open Scope string_scope.
Local Open Scope Z_scope.
Local Open Scope list_scope.

(** ** Data model *)

(** What [index.js] can see of a thrown JavaScript value: whether it is
    [null] or [undefined], and otherwise its [message], which is absent (or
    [null]), a string, or some other value.  Of such a value only its
    [includes] matters: [None] when it has none to call, else the answer it
    gives. *)
Inductive Message :=
| no_message
| text_message (text : string)
| other_message (includes_answer : option bool).

Inductive Error :=
| nullish
| thrown (message : Message).

(** [new Error(text)] *)
Definition new_Error (text : string) : Error := thrown (text_message text).

(** Payloads of the protocol layer are opaque to [index.js]. *)
Definition WAMessage := string.
Definition GroupMetadata := string.
Definition JSON := string.

(** The argument of the [group-participants.update] listener. *)
Record ParticipantsUpdate := {
  id : string;
  participants : list string;
  action : string
}.

(** The three shapes of [eventHandler.handleEvent(kind, sock, ...args)] in
    the file; [None] is JavaScript's [undefined]. *)
Inductive HandlerEvent :=
| Ev_message (msg : WAMessage)
| Ev_groupMemberJoin (gid : string) (participant : option string)
| Ev_groupUpdate (update : GroupMetadata).

Definition kind (e : HandlerEvent) : string :=
  match e with
  | Ev_message _ => "message"
  | Ev_groupMemberJoin _ _ => "groupMemberJoin"
  | Ev_groupUpdate _ => "groupUpdate"
  end.

(** Sockets are told apart by the order of their creation. *)
Definition Sock := nat.

(** Every call [index.js] makes to the outside, with the arguments the
    claims look at.  [setTimeout]'s callback is always [connectToWhatsApp]. *)
Inductive Call :=
| displayBanner
| ensureDirectories
| connectToDatabase
| initializeCommands
| loadEvents
| startServer
| useMultiFileAuthState
| fetchLatestBaileysVersion
| makeWASocket
| ev_on (event : string)
| saveCreds
| sendMessage (sock : option Sock) (jid : string) (text : string)
| handleMessage (sock : option Sock) (msg : WAMessage)
| handleGroupParticipantsUpdate (sock : option Sock) (update : ParticipantsUpdate)
| handleGroupUpdate (sock : option Sock) (update : GroupMetadata)
| handleEvent (sock : option Sock) (e : HandlerEvent)
| fs_emptyDir
| fs_writeJSON (file : string) (data : JSON)
| logger_info (text : string)
| logger_error (text : string)
| setTimeout (ms : Z)
| process_exit (code : Z).

(** The module-level variables of [index.js] (lines 25-30), the content of
    the credential directory [sessionDir] (file name to content), and the
    number of fallible outside calls made so far. *)
Record State := {
  sock : option Sock;
  initialConnection : bool;
  isConnecting : bool;
  retryCount : Z;
  sessionFiles : gmap string string;
  tick : nat
}.

Definition MAX_RETRIES : Z := 5.

(** The state of a process that has just been started. *)
Definition fresh (files : gmap string string) : State :=
  {| sock := None; initialConnection := true; isConnecting := false;
     retryCount := 0; sessionFiles := files; tick := 0 |}.

(** What [index.js] takes from its surroundings: constants of the Baileys
    library and of [./src/config], the environment variable, the Node
    built-ins it calls, and the behaviour of the collaborators.  [inl e] is
    a call that throws [e].  [throws t c] tells whether outside call [c],
    made as the [t]-th fallible call of the process, throws (or rejects).
    The two date formatters take the instant they are called at; they throw
    when [config.bot.timezone] is no valid zone. *)
Record Env := {
  loggedOut : Z;
  botName : string;
  bot_version : string;
  bot_publicMode : bool;
  bot_ownerName : string;
  bot_prefix : string;
  bot_ownerNumber : list string;
  SESSION_DATA : option string;
  base64_toString : string → Error + string;
  JSON_parse : string → Error + JSON;
  JSON_stringify : JSON → string;
  toLocaleString : nat → Error + string;
  toLocaleDateString : nat → Error + string;
  throws : nat → Call → option Error
}.

(** ** The monad: state, exceptions, process exit and a trace of calls *)

Inductive outcome (A : Type) :=
| Ret (a : A)
| Throw (e : Error)
| Exit (code : Z).
Arguments Ret {A} a.
Arguments Throw {A} e.
Arguments Exit {A} code.

Definition M (A : Type) : Type := State → outcome A * State * list Call.

Definition ret {A} (a : A) : M A := λ s, (Ret a, s, []).

Definition bind {A B} (m : M A) (k : A → M B) : M B := λ s,
  match m s with
  | (Ret a, s1, t1) => let '(r, s2, t2) := k a s1 in (r, s2, t1 ++ t2)
  | (Throw e, s1, t1) => (Throw e, s1, t1)
  | (Exit c, s1, t1) => (Exit c, s1, t1)
  end.

#[global] Instance M_ret : MRet M := @ret.
#[global] Instance M_bind : MBind M := λ A B k m, bind m k.

Definition get : M State := λ s, (Ret s, s, []).
Definition modify (f : State → State) : M unit := λ s, (Ret tt, f s, []).

(** [try { body } catch (error) { handler error }] *)
Definition try_catch {A} (body : M A) (handler : Error → M A) : M A := λ s,
  match body s with
  | (Throw e, s1, t1) => let '(r, s2, t2) := handler e s1 in (r, s2, t1 ++ t2)
  | other => other
  end.

(** A call that cannot fail: the logger and [setTimeout]. *)
Definition emit (c : Call) : M unit := λ s, (Ret tt, s, [c]).

(** Record updates, one per variable. *)
Definition with_sock (v : option Sock) (s : State) : State :=
  {| sock := v; initialConnection := initialConnection s;
     isConnecting := isConnecting s; retryCount := retryCount s;
     sessionFiles := sessionFiles s; tick := tick s |}.
Definition with_initialConnection (v : bool) (s : State) : State :=
  {| sock := sock s; initialConnection := v;
     isConnecting := isConnecting s; retryCount := retryCount s;
     sessionFiles := sessionFiles s; tick := tick s |}.
Definition with_isConnecting (v : bool) (s : State) : State :=
  {| sock := sock s; initialConnection := initialConnection s;
     isConnecting := v; retryCount := retryCount s;
     sessionFiles := sessionFiles s; tick := tick s |}.
Definition with_retryCount (v : Z) (s : State) : State :=
  {| sock := sock s; initialConnection := initialConnection s;
     isConnecting := isConnecting s; retryCount := v;
     sessionFiles := sessionFiles s; tick := tick s |}.
Definition with_sessionFiles (v : gmap string string) (s : State) : State :=
  {| sock := sock s; initialConnection := initialConnection s;
     isConnecting := isConnecting s; retryCount := retryCount s;
     sessionFiles := v; tick := tick s |}.
Definition tock (s : State) : State :=
  {| sock := sock s; initialConnection := initialConnection s;
     isConnecting := isConnecting s; retryCount := retryCount s;
     sessionFiles := sessionFiles s; tick := S (tick s) |}.

(** A call that may throw, as the environment decides. *)
Definition call (env : Env) (c : Call) : M unit := λ s,
  match throws env (tick s) c with
  | None => (Ret tt, tock s, [c])
  | Some e => (Throw e, tock s, [c])
  end.

Definition throw {A} (e : Error) : M A := λ s, (Throw e, s, []).

(** [process.exit(code)]: nothing after it runs. *)
Definition exit (code : Z) : M unit := λ s, (Exit code, s, [process_exit code]).

(** [for (const x of xs) { await body x }] *)
Fixpoint for_of {A} (xs : list A) (body : A → M unit) : M unit :=
  match xs with
  | [] => mret tt
  | x :: rest => body x ;; for_of rest body
  end.

(** Assignments to the module-level variables. *)
Definition set_sock (v : option Sock) : M unit := modify (with_sock v).
Definition set_initialConnection (v : bool) : M unit := modify (with_initialConnection v).
Definition set_isConnecting (v : bool) : M unit := modify (with_isConnecting v).
Definition set_retryCount (v : Z) : M unit := modify (with_retryCount v).
Definition set_sessionFiles (v : gmap string string) : M unit := modify (with_sessionFiles v).

(** ** The program *)

Section Program.
Variable env : Env.

(** [processSessionData] (lines 51-63).  [!process.env.SESSION_DATA] holds
    for an unset and for an empty variable.  The decoding and [JSON.parse]
    run inside the [try], like the two file-system calls. *)
Definition processSessionData : M bool :=
  match SESSION_DATA env with
  | None => mret false
  | Some "" => mret false
  | Some blob =>
      try_catch
        (text ← match base64_toString env blob with
                | inl e => throw e
                | inr text => mret text
                end;
         sessionData ← match JSON_parse env text with
                       | inl e => throw e
                       | inr v => mret v
                       end;
         call env fs_emptyDir ;;
         set_sessionFiles ∅ ;;
         call env (fs_writeJSON "creds.json" sessionData) ;;
         s ← get;
         set_sessionFiles
           (<["creds.json" := JSON_stringify env sessionData]> (sessionFiles s)) ;;
         mret true)
        (λ error,
           emit (logger_error "Session data processing failed:") ;;
           mret false)
  end.

Definition nl : string := String (Ascii.ascii_of_nat 10) EmptyString.

(** The template literal of lines 82-90. *)
Definition startupText (time date : string) : string :=
  "╭─「 *" +:+ botName env +:+ "* 」" +:+ nl +:+
  "├ Status: Online ✅" +:+ nl +:+
  "├ Version: " +:+ bot_version env +:+ nl +:+
  "├ Time: " +:+ time +:+ nl +:+
  "├ Date: " +:+ date +:+ nl +:+
  "├ Mode: " +:+ (if bot_publicMode env then "Public" else "Private") +:+ nl +:+
  "├ Owner: " +:+ bot_ownerName env +:+ nl +:+
  "├ Prefix: " +:+ bot_prefix env +:+ nl +:+
  "╰────────────────".

(** [sendStartupMessage(sock, jid)] (lines 65-109); the caller passes the
    module-level [sock].  The time and the date are formatted before the
    [try]. *)
Definition sendStartupMessage (jid : string) : M unit :=
  s ← get;
  time ← match toLocaleString env (tick s) with
         | inl e => throw e
         | inr text => mret text
         end;
  date ← match toLocaleDateString env (tick s) with
         | inl e => throw e
         | inr text => mret text
         end;
  try_catch
    (call env (sendMessage (sock s) jid (startupText time date)))
    (λ error, emit (logger_error "Failed to send startup message:")).

(** The socket made after [old]. *)
Definition next_sock (old : option Sock) : Sock :=
  match old with
  | None => 0%nat
  | Some n => S n
  end.

(** The test [retryCount < MAX_RETRIES] of lines 140 and 196. *)
Definition shouldRetry (n : Z) : bool := n <? MAX_RETRIES.

(** The [try] block of [connectToWhatsApp] (lines 116-191); the listeners
    it registers are the definitions that follow. *)
Definition connect_try : M (option Sock) :=
  call env useMultiFileAuthState ;;
  call env fetchLatestBaileysVersion ;;
  call env makeWASocket ;;
  s ← get;
  set_sock (Some (next_sock (sock s))) ;;
  call env (ev_on "connection.update") ;;
  call env (ev_on "creds.update") ;;
  call env (ev_on "messages.upsert") ;;
  call env (ev_on "group-participants.update") ;;
  call env (ev_on "groups.update") ;;
  s ← get;
  mret (sock s).

(** Its [catch] block (lines 193-202). *)
Definition connect_catch (error : Error) : M (option Sock) :=
  set_isConnecting false ;;
  emit (logger_error "Connection error:") ;;
  s ← get;
  (if shouldRetry (retryCount s) then
     set_retryCount (retryCount s + 1) ;;
     emit (setTimeout 5000)
   else
     exit 1) ;;
  mret None.

(** [connectToWhatsApp] (lines 111-204). *)
Definition connectToWhatsApp : M (option Sock) :=
  s ← get;
  if isConnecting s then mret None
  else
    set_isConnecting true ;;
    try_catch connect_try connect_catch.

(** [lastDisconnect?.error?.output?.statusCode !== DisconnectReason.loggedOut];
    a missing link of the chain gives [undefined], here [None]. *)
Definition shouldReconnect (statusCode : option Z) : bool :=
  match statusCode with
  | Some c => negb (c =? loggedOut env)
  | None => true
  end.

(** The [connection.update] listener (lines 135-162). *)
Definition on_connection_update
    (connection : option string) (statusCode : option Z) : M unit :=
  (if bool_decide (connection = Some "close") then
     set_isConnecting false ;;
     s ← get;
     if shouldReconnect statusCode && shouldRetry (retryCount s) then
       set_retryCount (retryCount s + 1) ;;
       s ← get;
       emit (logger_info ("Reconnecting... Attempt " +:+ pretty (retryCount s))) ;;
       emit (setTimeout 5000)
     else
       emit (logger_error "Connection terminated") ;;
       exit 1
   else mret tt) ;;
  (if bool_decide (connection = Some "open") then
     set_retryCount 0 ;;
     set_isConnecting false ;;
     emit (logger_info "Connected to WhatsApp") ;;
     s ← get;
     if initialConnection s then
       set_initialConnection false ;;
       for_of (bot_ownerNumber env) sendStartupMessage
     else mret tt
   else mret tt).

(** The body of the loop over a message batch (lines 169-174). *)
Definition route_message (msg : WAMessage) : M unit :=
  try_catch
    (s ← get;
     call env (handleMessage (sock s) msg) ;;
     s ← get;
     call env (handleEvent (sock s) (Ev_message msg)))
    (λ error, emit (logger_error "Message handling failed:")).

(** The [messages.upsert] listener (lines 166-177). *)
Definition on_messages_upsert (messages : list WAMessage) (type : string) : M unit :=
  if bool_decide (type = "notify") then for_of messages route_message
  else mret tt.

(** The [group-participants.update] listener (lines 179-182);
    [update.participants[0]] is [undefined] on an empty array. *)
Definition on_group_participants_update (update : ParticipantsUpdate) : M unit :=
  s ← get;
  call env (handleGroupParticipantsUpdate (sock s) update) ;;
  s ← get;
  call env (handleEvent (sock s)
              (Ev_groupMemberJoin (id update) (participants update !! 0%nat))).

(** The body of the loop over a batch of group updates (lines 186-187). *)
Definition route_group_update (update : GroupMetadata) : M unit :=
  s ← get;
  call env (handleGroupUpdate (sock s) update) ;;
  s ← get;
  call env (handleEvent (sock s) (Ev_groupUpdate update)).

(** The [groups.update] listener (lines 184-189). *)
Definition on_groups_update (updates : list GroupMetadata) : M unit :=
  for_of updates route_group_update.

End Program.

(** ** The process: listeners run by the event loop *)

(** What the event loop can hand to the program: an event of the socket
    (with the fields the listeners read), or a timer that fires. *)
Inductive Event :=
| connection_update (connection : option string) (statusCode : option Z)
| creds_update
| messages_upsert (messages : list WAMessage) (type : string)
| group_participants_update (update : ParticipantsUpdate)
| groups_update (updates : list GroupMetadata)
| timeout.

(** A running process: its variables, the exit status once it has exited,
    the timers set and not yet fired, and every call made so far. *)
Record Process := {
  vars : State;
  exited : option Z;
  timers : nat;
  calls : list Call
}.

(** [String.prototype.includes] *)
Fixpoint includes (needle hay : string) : bool :=
  String.prefix needle hay ||
  match hay with
  | EmptyString => false
  | String _ rest => includes needle rest
  end.

Definition is_setTimeout (c : Call) : bool :=
  match c with
  | setTimeout _ => true
  | _ => false
  end.

Definition is_process_exit (c : Call) : bool :=
  match c with
  | process_exit _ => true
  | _ => false
  end.

Section Loop.
Variable env : Env.

(** The listener [connectToWhatsApp] registers for each event; a timer
    calls [connectToWhatsApp] and drops the promise. *)
Definition listener (e : Event) : M unit :=
  match e with
  | connection_update connection statusCode =>
      on_connection_update env connection statusCode
  | creds_update => call env saveCreds
  | messages_upsert messages type => on_messages_upsert env messages type
  | group_participants_update update => on_group_participants_update env update
  | groups_update updates => on_groups_update env updates
  | timeout => connectToWhatsApp env ;; mret tt
  end.

(** The [TypeError] of a property read on [null] or [undefined], or of a
    call of what is no function. *)
Definition TypeError : Error := new_Error "TypeError".

(** The [unhandledRejection] handler of lines 229-232.  [error.message]
    throws on [null] and [undefined]; [?.] stops at a message that is
    absent; [includes] is the string's, or whatever the message has. *)
Definition unhandledRejection (error : Error) : M unit :=
  emit (logger_error "Unhandled rejection:") ;;
  match error with
  | nullish => throw TypeError
  | thrown no_message => mret tt
  | thrown (text_message text) =>
      if includes "Session closed" text then exit 1 else mret tt
  | thrown (other_message None) => throw TypeError
  | thrown (other_message (Some answer)) => if answer then exit 1 else mret tt
  end.

(** The [uncaughtException] handler of lines 234-237. *)
Definition uncaughtException (error : Error) : M unit :=
  emit (logger_error "Uncaught exception:") ;;
  exit 1.

(** What a listener that rejects ends in: the first handler, and the
    second when the first throws. *)
Definition rejection (error : Error) : M unit :=
  try_catch (unhandledRejection error) uncaughtException.

(** One turn of the event loop, the listener run to its end.  A process
    that has exited takes no event, and only a timer that was set fires. *)
Definition deliver (e : Event) (p : Process) : Process :=
  match exited p with
  | Some _ => p
  | None =>
      match e, timers p with
      | timeout, O => p
      | _, _ =>
          let '(r, s, t) :=
            try_catch (listener e) rejection (vars p) in
          {| vars := s;
             exited := match r with
                       | Exit code => Some code
                       | _ => None
                       end;
             timers := (match e with
                        | timeout => pred (timers p)
                        | _ => timers p
                        end + length (filter is_setTimeout t))%nat;
             calls := calls p ++ t |}
      end
  end.

Definition run (events : list Event) (p : Process) : Process :=
  foldl (λ q e, deliver e q) p events.

(** [initialize] (lines 218-242). *)
Definition initialize : M unit :=
  try_catch
    (call env displayBanner ;;
     call env ensureDirectories ;;
     call env connectToDatabase ;;
     processSessionData env ;;
     call env initializeCommands ;;
     call env loadEvents ;;
     connectToWhatsApp env ;;
     call env startServer)
    (λ error,
       emit (logger_error "Initialization failed:") ;;
       exit 1).

(** The process once [initialize()] has run on the given credential
    directory. *)
Definition boot (files : gmap string string) : Process :=
  let '(r, s, t) := initialize (fresh files) in
  {| vars := s;
     exited := match r with
               | Exit code => Some code
               | _ => None
               end;
     timers := length (filter is_setTimeout t);
     calls := t |}.

(** How often the process has called [process.exit]. *)
Definition exits (p : Process) : nat := length (filter is_process_exit (calls p)).

End Loop.

(** ** Vocabulary of the statements *)

(** [preserves P Q m]: run from variables that satisfy [P], [m] ends in
    variables that satisfy [P], having made only calls that satisfy [Q]. *)
Definition preserves {A} (P : State → Prop) (Q : Call → Prop) (m : M A) : Prop :=
  ∀ s, P s → P (m s).1.2 ∧ Forall Q (m s).2.

(** The variables after a close, or a failed connect, that is retried. *)
Definition retried (s : State) : State :=
  with_retryCount (retryCount s + 1) (with_isConnecting false s).

(** The variables once the socket has reported [open]. *)
Definition opened (s : State) : State :=
  with_isConnecting false (with_retryCount 0 s).

(** The variables after a connect that went through. *)
Definition connected (s : State) : State :=
  Nat.iter 5 tock
    (with_sock (Some (next_sock (sock s)))
       (Nat.iter 3 tock (with_isConnecting true s))).

(** The calls of the [try] block of [connectToWhatsApp]. *)
Definition is_transport_call (c : Call) : bool :=
  match c with
  | useMultiFileAuthState | fetchLatestBaileysVersion | makeWASocket | ev_on _ => true
  | _ => false
  end.

Definition transport_calls : list Call :=
  [useMultiFileAuthState; fetchLatestBaileysVersion; makeWASocket;
   ev_on "connection.update"; ev_on "creds.update"; ev_on "messages.upsert";
   ev_on "group-participants.update"; ev_on "groups.update"].

(** The transport can be built: no call of the [try] block throws. *)
Definition connects (env : Env) : Prop :=
  ∀ t c, is_transport_call c = true → throws env t c = None.

Definition is_sendMessage (c : Call) : bool :=
  match c with
  | sendMessage _ _ _ => true
  | _ => false
  end.

(** Once [initialConnection] is cleared it stays so, and no listener sends
    a message. *)
Definition notified (s : State) : Prop := initialConnection s = false.
Definition no_send (c : Call) : Prop := is_sendMessage c = false.

(** The recipients of the [sendMessage] calls, in call order. *)
Definition recipients (t : list Call) : list string :=
  omap (λ c, match c with
             | sendMessage _ jid _ => Some jid
             | _ => None
             end) t.

(** The messages handed to [messageHandler.handleMessage], in call order. *)
Definition handled_messages (t : list Call) : list WAMessage :=
  omap (λ c, match c with
             | handleMessage _ msg => Some msg
             | _ => None
             end) t.

(** The date formatters return: [config.bot.timezone] is a valid zone. *)
Definition formats (env : Env) : Prop :=
  ∀ t, ∃ time date,
    toLocaleString env t = inr time ∧ toLocaleDateString env t = inr date.

(** The text a formatter has returned. *)
Definition formatted (r : Error + string) : string :=
  match r with
  | inr text => text
  | inl _ => ""
  end.

(** The call [sendStartupMessage] makes for [jid] from variables [s], once
    the time and the date are formatted. *)
Definition startup_send (env : Env) (s : State) (jid : string) : Call :=
  sendMessage (sock s) jid
    (startupText env (formatted (toLocaleString env (tick s)))
       (formatted (toLocaleDateString env (tick s)))).

(** The end of the open branch (lines 155-160): the owners are told, on
    the first open only. *)
Definition notify_owners_once (env : Env) : M unit :=
  s ← get;
  if initialConnection s then
    set_initialConnection false ;;
    for_of (bot_ownerNumber env) (sendStartupMessage env)
  else mret tt.

(** Calls that set no timer and do not exit. *)
Definition harmless (c : Call) : Prop :=
  is_setTimeout c = false ∧ is_process_exit c = false.

Definition is_open (e : Event) : bool :=
  match e with
  | connection_update connection _ => bool_decide (connection = Some "open")
  | _ => false
  end.

(** The calls of the loop over the owners: the send to an owner, its
    failure logged when it throws, and only then the next owner's. *)
Fixpoint startup_calls (env : Env) (s : State) (owners : list string) : list Call :=
  match owners with
  | [] => []
  | jid :: rest =>
      startup_send env s jid ::
      match throws env (tick s) (startup_send env s jid) with
      | Some _ => [logger_error "Failed to send startup message:"]
      | None => []
      end ++ startup_calls env (tock s) rest
  end.

(** The first element of an array, [undefined] when there is none. *)
Definition first_participant (update : ParticipantsUpdate) : option string :=
  match participants update with
  | [] => None
  | first :: _ => Some first
  end.

(** Neither decoding nor parsing gives a document. *)
Definition malformed (env : Env) (blob : string) : Prop :=
  match base64_toString env blob with
  | inl _ => True
  | inr text => match JSON_parse env text with
                | inl _ => True
                | inr _ => False
                end
  end.

Definition is_transient_close (env : Env) (e : Event) : bool :=
  match e with
  | connection_update connection code =>
      bool_decide (connection = Some "close") && shouldReconnect env code
  | _ => false
  end.

Definition is_timeout (e : Event) : bool :=
  match e with
  | timeout => true
  | _ => false
  end.

(** The closes of a run that are not log-outs. *)
Definition closes (env : Env) (events : list Event) : nat :=
  length (filter (is_transient_close env) events).

(** ** Environments and runs to evaluate the program on *)

(** Two owners, no bootstrap blob, a decoder and a parser that stand in for
    Node's (a document is a text that starts with a brace), and an outside
    in which no call throws. *)
Definition quiet_env : Env :=
  {| loggedOut := 401;
     botName := "NexusCoders";
     bot_version := "1.0.0";
     bot_publicMode := true;
     bot_ownerName := "Owner";
     bot_prefix := "!";
     bot_ownerNumber := ["111@s.whatsapp.net"; "222@s.whatsapp.net"];
     SESSION_DATA := None;
     base64_toString := λ b, inr b;
     JSON_parse := λ t, if String.prefix "{" t then inr t
                        else inl (new_Error "Unexpected token");
     JSON_stringify := λ v, v;
     toLocaleString := λ _, inr "10:00:00 AM";
     toLocaleDateString := λ _, inr "Monday, November 2, 2026";
     throws := λ _ _, None |}.

(** [env] with other answers of the outside, and with another value of the
    environment variable. *)
Definition with_throws (f : nat → Call → option Error) (env : Env) : Env :=
  {| loggedOut := loggedOut env; botName := botName env;
     bot_version := bot_version env; bot_publicMode := bot_publicMode env;
     bot_ownerName := bot_ownerName env; bot_prefix := bot_prefix env;
     bot_ownerNumber := bot_ownerNumber env; SESSION_DATA := SESSION_DATA env;
     base64_toString := base64_toString env; JSON_parse := JSON_parse env;
     JSON_stringify := JSON_stringify env; toLocaleString := toLocaleString env;
     toLocaleDateString := toLocaleDateString env; throws := f |}.
Definition with_SESSION_DATA (v : option string) (env : Env) : Env :=
  {| loggedOut := loggedOut env; botName := botName env;
     bot_version := bot_version env; bot_publicMode := bot_publicMode env;
     bot_ownerName := bot_ownerName env; bot_prefix := bot_prefix env;
     bot_ownerNumber := bot_ownerNumber env; SESSION_DATA := v;
     base64_toString := base64_toString env; JSON_parse := JSON_parse env;
     JSON_stringify := JSON_stringify env; toLocaleString := toLocaleString env;
     toLocaleDateString := toLocaleDateString env; throws := throws env |}.

Definition transient_close : Event := connection_update (Some "close") (Some 428).

(** An environment in which the socket cannot be built. *)
Definition unreachable_env : Env :=
  with_throws (λ _ c, match c with
                      | makeWASocket => Some (new_Error "ECONNREFUSED")
                      | _ => None
                      end) quiet_env.

(** An environment whose message handler throws on the message ["m1"]. *)
Definition failing_handler_env : Env :=
  with_throws (λ _ c, match c with
                      | handleMessage _ "m1" => Some (new_Error "boom")
                      | _ => None
                      end) quiet_env.

(** An environment whose message handler throws on the group update ["g1"]. *)
Definition failing_group_handler_env : Env :=
  with_throws (λ _ c, match c with
                      | handleGroupUpdate _ "g1" => Some (new_Error "boom")
                      | _ => None
                      end) quiet_env.

(** The [RangeError] of a formatter given a time zone it does not know. *)
Definition RangeError : Error := new_Error "Invalid time zone specified: Mars/Olympus".

(** [quiet_env] with a [config.bot.timezone] that is no valid zone. *)
Definition invalid_timezone_env : Env :=
  {| loggedOut := loggedOut quiet_env; botName := botName quiet_env;
     bot_version := bot_version quiet_env; bot_publicMode := bot_publicMode quiet_env;
     bot_ownerName := bot_ownerName quiet_env; bot_prefix := bot_prefix quiet_env;
     bot_ownerNumber := bot_ownerNumber quiet_env; SESSION_DATA := SESSION_DATA quiet_env;
     base64_toString := base64_toString quiet_env; JSON_parse := JSON_parse quiet_env;
     JSON_stringify := JSON_stringify quiet_env;
     toLocaleString := λ _, inl RangeError;
     toLocaleDateString := λ _, inl RangeError;
     throws := throws quiet_env |}.

(** An environment in which the first owner cannot be reached. *)
Definition flaky_send_env : Env :=
  with_throws (λ _ c, match c with
                      | sendMessage _ "111@s.whatsapp.net" _ =>
                          Some (new_Error "timed out")
                      | _ => None
                      end) quiet_env.

(** An environment whose variable [SESSION_DATA] holds [blob]. *)
Definition session_env (blob : string) : Env :=
  with_SESSION_DATA (Some blob) quiet_env.

(** A credential directory left by an earlier session. *)
Definition old_session : gmap string string :=
  <["creds.json" := "{old}"]> (<["pre-key-1.json" := "{key}"]> ∅).

(** A second timer that fires while the first reconnect is in flight. *)
Definition overlapping_reconnect : Process :=
  run quiet_env [transient_close; transient_close; timeout] (boot quiet_env ∅).

(** A close that is not a log-out, and the reconnect its timer starts. *)
Definition drop_and_redial : list Event := [transient_close; timeout].

Definition five_drops : list Event := mjoin (replicate 5 drop_and_redial).
Definition six_drops : list Event := five_drops ++ [transient_close].

(** ** Vocabulary of the further properties *)

(** The counter is between 0 and [MAX_RETRIES]. *)
Definition within_budget (s : State) : Prop := 0 ≤ retryCount s ≤ MAX_RETRIES.

(** Timers are set 5000 ms ahead, and the exit status is 1. *)
Definition fixed_policy (c : Call) : Prop :=
  match c with
  | setTimeout ms => ms = 5000
  | process_exit code => code = 1
  | _ => True
  end.

(** [exit_checked Q m]: when [m] ends in [process.exit(code)], that call
    satisfies [Q]. *)
Definition exit_checked {A} (Q : Call → Prop) (m : M A) : Prop :=
  ∀ s code, (m s).1.1 = Exit code → Q (process_exit code).

(** What holds of a process at every point of its life. *)
Definition policy_kept (p : Process) : Prop :=
  within_budget (vars p) ∧
  Forall fixed_policy (calls p) ∧
  (exited p = None ∨ exited p = Some 1).

(** The transport can never be built: the [try] block of
    [connectToWhatsApp] throws from every state. *)
Definition never_connects (env : Env) : Prop :=
  ∀ s, ∃ e, (connect_try env s).1.1 = Throw e.

(** The steps of [initialize] around the bootstrap and the connect. *)
Definition is_boot_step (c : Call) : bool :=
  match c with
  | displayBanner | ensureDirectories | connectToDatabase
  | initializeCommands | loadEvents | startServer => true
  | _ => false
  end.

Definition boot_steps : list Call :=
  [displayBanner; ensureDirectories; connectToDatabase;
   initializeCommands; loadEvents; startServer].

(** No step of [initialize] throws. *)
Definition boots (env : Env) : Prop :=
  ∀ t c, is_boot_step c = true → throws env t c = None.

(** Calls that are no step of [initialize], set no timer and do not exit. *)
Definition inner_call (c : Call) : Prop :=
  is_boot_step c = false ∧ is_setTimeout c = false ∧ is_process_exit c = false.

(** The variables agree but for the directory and the clock. *)
Definition same_connection (s s' : State) : Prop :=
  sock s' = sock s ∧ initialConnection s' = initialConnection s ∧
  isConnecting s' = isConnecting s ∧ retryCount s' = retryCount s.



(** The calls into the two handler modules. *)
Definition is_handler_call (c : Call) : bool :=
  match c with
  | handleMessage _ _ | handleGroupParticipantsUpdate _ _
  | handleGroupUpdate _ _ | handleEvent _ _ => true
  | _ => false
  end.

(** No handler throws. *)
Definition handlers_return (env : Env) : Prop :=
  ∀ t c, is_handler_call c = true → throws env t c = None.

(** The calls a batch makes when both handlers take every message. *)
Definition message_calls (sk : option Sock) (messages : list WAMessage) : list Call :=
  messages ≫= λ msg, [handleMessage sk msg; handleEvent sk (Ev_message msg)].


(** [text] has [needle] somewhere inside. *)
Definition contains (needle text : string) : Prop :=
  ∃ before after, text = before +:+ needle +:+ after.

(** The rejections that end the process: the message is a string that
    contains ['Session closed'] or a value whose [includes] says so, or
    the [unhandledRejection] handler throws on it. *)
Definition fatal (error : Error) : Prop :=
  match error with
  | nullish => True
  | thrown no_message => False
  | thrown (text_message text) => contains "Session closed" text
  | thrown (other_message None) => True
  | thrown (other_message (Some answer)) => answer = true
  end.

(** An environment whose message handler rejects group-participants
    updates because the session is gone. *)
Definition closed_session_env : Env :=
  with_throws (λ _ c, match c with
                      | handleGroupParticipantsUpdate _ _ =>
                          Some (new_Error "Error: Session closed, reconnect")
                      | _ => None
                      end) quiet_env.

(** An environment whose message handler rejects the group update ["g1"]
    with no value at all. *)
Definition empty_rejection_env : Env :=
  with_throws (λ _ c, match c with
                      | handleGroupUpdate _ "g1" => Some nullish
                      | _ => None
                      end) quiet_env.

Definition one_joined : ParticipantsUpdate :=
  {| id := "g@g.us"; participants := ["a"]; action := "add" |}.


(** The calls that change the credential directory. *)
Definition is_fs_call (c : Call) : bool :=
  match c with
  | fs_emptyDir | fs_writeJSON _ _ => true
  | _ => false
  end.

(** [SESSION_DATA] is unset, or set to the empty string. *)
Definition no_blob (env : Env) : Prop :=
  SESSION_DATA env = None ∨ SESSION_DATA env = Some "".

(** An environment with a valid blob and a disk that cannot be written. *)
Definition full_disk_env : Env :=
  with_throws (λ _ c, match c with
                      | fs_writeJSON _ _ => Some (new_Error "ENOSPC")
                      | _ => None
                      end) (session_env "{new}").

(** ** Reasoning about the monad *)

Ltac unfold_m :=
  cbv [mbind M_bind bind mret M_ret ret get modify emit exit throw try_catch
       set_sock set_initialConnection set_isConnecting set_retryCount
       set_sessionFiles].

Lemma shouldRetry_true n : shouldRetry n = true ↔ n < 5.
Proof. unfold shouldRetry, MAX_RETRIES. apply Z.ltb_lt. Qed.

Lemma shouldRetry_false n : shouldRetry n = false ↔ 5 ≤ n.
Proof. unfold shouldRetry, MAX_RETRIES. apply Z.ltb_ge. Qed.

Section Preserves.
Context (P : State → Prop) (Q : Call → Prop).

Lemma preserves_ret {A} (a : A) : preserves P Q (mret a).
Proof. intros s Hs. by split; [|constructor]. Qed.

Lemma preserves_bind {A B} (m : M A) (k : A → M B) :
  preserves P Q m → (∀ a, preserves P Q (k a)) → preserves P Q (m ≫= k).
Proof.
  intros Hm Hk s Hs. destruct (Hm s Hs) as [H1 H2].
  unfold mbind, M_bind, bind.
  destruct (m s) as [[[a|e|c] s1] t1]; simpl in *; [|done..].
  destruct (Hk a s1 H1) as [H3 H4].
  destruct (k a s1) as [[r s2] t2]; simpl in *.
  split; [done|]. by apply Forall_app.
Qed.

Lemma preserves_try_catch {A} (m : M A) (h : Error → M A) :
  preserves P Q m → (∀ e, preserves P Q (h e)) → preserves P Q (try_catch m h).
Proof.
  intros Hm Hh s Hs. destruct (Hm s Hs) as [H1 H2].
  unfold try_catch.
  destruct (m s) as [[[a|e|c] s1] t1]; simpl in *; [done| |done].
  destruct (Hh e s1 H1) as [H3 H4].
  destruct (h e s1) as [[r s2] t2]; simpl in *.
  split; [done|]. by apply Forall_app.
Qed.

Lemma preserves_get : preserves P Q get.
Proof. intros s Hs. by split; [|constructor]. Qed.

Lemma preserves_throw {A} e : preserves P Q (@throw A e).
Proof. intros s Hs. by split; [|constructor]. Qed.

Lemma preserves_modify f : (∀ s, P s → P (f s)) → preserves P Q (modify f).
Proof. intros Hf s Hs. split; [by apply Hf|constructor]. Qed.

Lemma preserves_emit c : Q c → preserves P Q (emit c).
Proof. intros Hc s Hs. split; [done|]. by repeat constructor. Qed.

Lemma preserves_exit code : Q (process_exit code) → preserves P Q (exit code).
Proof. intros Hc s Hs. split; [done|]. by repeat constructor. Qed.

Lemma preserves_call env c :
  (∀ s, P s → P (tock s)) → Q c → preserves P Q (call env c).
Proof.
  intros Ht Hc s Hs. unfold call.
  destruct (throws env (tick s) c); simpl;
    (split; [by apply Ht|by repeat constructor]).
Qed.

Lemma preserves_for_of {A} (xs : list A) (body : A → M unit) :
  (∀ x, preserves P Q (body x)) → preserves P Q (for_of xs body).
Proof.
  intros Hb. induction xs as [|x rest IH]; simpl.
  - apply preserves_ret.
  - by apply preserves_bind.
Qed.

End Preserves.

Lemma preserves_weaken {A} (P : State → Prop) (Q Q' : Call → Prop) (m : M A) :
  (∀ c, Q c → Q' c) → preserves P Q m → preserves P Q' m.
Proof.
  intros HQ Hm s Hs. destruct (Hm s Hs) as [H1 H2].
  split; [done|]. eapply Forall_impl; eauto.
Qed.


Ltac preserves_step :=
  first
    [ apply preserves_ret
    | apply preserves_get
    | apply preserves_throw
    | apply preserves_emit; done
    | apply preserves_exit; done
    | apply preserves_call; [by intros ??|done]
    | apply preserves_modify; by intros ??
    | apply preserves_bind; [|intros ?]
    | apply preserves_try_catch; [|intros ?]
    | apply preserves_for_of; intros ?
    | match goal with
      | |- preserves _ _ (if ?b then _ else _) => destruct b
      | |- preserves _ _ (match ?x with _ => _ end) => destruct x
      end ].

Section ExitChecked.
Context (Q : Call → Prop).

Lemma exit_checked_ret {A} (a : A) : exit_checked Q (mret a).
Proof. by intros s code. Qed.

Lemma exit_checked_get : exit_checked Q get.
Proof. by intros s code. Qed.

Lemma exit_checked_throw {A} e : exit_checked Q (@throw A e).
Proof. by intros s code. Qed.

Lemma exit_checked_modify f : exit_checked Q (modify f).
Proof. by intros s code. Qed.

Lemma exit_checked_emit c : exit_checked Q (emit c).
Proof. by intros s code. Qed.

Lemma exit_checked_call env c : exit_checked Q (call env c).
Proof. intros s code. unfold call. by destruct (throws env (tick s) c). Qed.

Lemma exit_checked_exit code : Q (process_exit code) → exit_checked Q (exit code).
Proof. intros Hq s code' H. simpl in H. by injection H as <-. Qed.

Lemma exit_checked_bind {A B} (m : M A) (k : A → M B) :
  exit_checked Q m → (∀ a, exit_checked Q (k a)) → exit_checked Q (m ≫= k).
Proof.
  intros Hm Hk s code. specialize (Hm s code).
  unfold mbind, M_bind, bind.
  destruct (m s) as [[[a|e|c] s1] t1]; simpl in *; [|done|intros [= ->]; by apply Hm].
  specialize (Hk a s1 code).
  by destruct (k a s1) as [[r s2] t2].
Qed.

Lemma exit_checked_try_catch {A} (m : M A) (h : Error → M A) :
  exit_checked Q m → (∀ e, exit_checked Q (h e)) → exit_checked Q (try_catch m h).
Proof.
  intros Hm Hh s code. specialize (Hm s code).
  unfold try_catch.
  destruct (m s) as [[[a|e|c] s1] t1]; simpl in *; [done| |intros [= ->]; by apply Hm].
  specialize (Hh e s1 code).
  by destruct (h e s1) as [[r s2] t2].
Qed.

Lemma exit_checked_for_of {A} (xs : list A) (body : A → M unit) :
  (∀ x, exit_checked Q (body x)) → exit_checked Q (for_of xs body).
Proof.
  intros Hb. induction xs as [|x rest IH]; simpl.
  - apply exit_checked_ret.
  - by apply exit_checked_bind.
Qed.

End ExitChecked.

Ltac exit_checked_step :=
  first
    [ apply exit_checked_ret
    | apply exit_checked_get
    | apply exit_checked_throw
    | apply exit_checked_modify
    | apply exit_checked_emit
    | apply exit_checked_call
    | apply exit_checked_exit; done
    | apply exit_checked_bind; [|intros ?]
    | apply exit_checked_try_catch; [|intros ?]
    | apply exit_checked_for_of; intros ?
    | match goal with
      | |- exit_checked _ (if ?b then _ else _) => destruct b
      | |- exit_checked _ (match ?x with _ => _ end) => destruct x
      end ].

(** ** The reentrancy guard *)

(** C4: a call of [connectToWhatsApp] made while [isConnecting] is set
    returns [null] at once: the variables are unchanged and no call is made,
    so no socket is built and nothing is subscribed; a reconnect timer that
    fires in that state only uses up the timer. *)
Theorem connect_while_connecting_is_noop env (p : Process) :
  isConnecting (vars p) = true →
  exited p = None →
  connectToWhatsApp env (vars p) = (Ret None, vars p, []) ∧
  vars (deliver env timeout p) = vars p ∧
  calls (deliver env timeout p) = calls p ∧
  exited (deliver env timeout p) = None ∧
  timers (deliver env timeout p) = pred (timers p).
Proof.
  intros Hc Hx.
  assert (Hnoop : connectToWhatsApp env (vars p) = (Ret None, vars p, [])).
  { unfold connectToWhatsApp. unfold_m. by rewrite Hc. }
  split; [done|].
  unfold deliver. rewrite Hx.
  destruct (timers p) as [|n] eqn:Ht; [by rewrite Ht|].
  unfold listener. unfold_m. rewrite Hnoop. simpl.
  rewrite app_nil_r. repeat split. lia.
Qed.

Lemma connect_while_connecting_is_noop_witness :
  (isConnecting (vars overlapping_reconnect) = true ∧
   exited overlapping_reconnect = None ∧
   timers overlapping_reconnect = 1%nat) ∧
  connectToWhatsApp quiet_env (vars overlapping_reconnect)
  = (Ret None, vars overlapping_reconnect, []) ∧
  vars (deliver quiet_env timeout overlapping_reconnect) = vars overlapping_reconnect ∧
  calls (deliver quiet_env timeout overlapping_reconnect) = calls overlapping_reconnect ∧
  exited (deliver quiet_env timeout overlapping_reconnect) = None ∧
  timers (deliver quiet_env timeout overlapping_reconnect) = pred (timers overlapping_reconnect).
Proof.
  split; [by vm_compute|].
  apply (connect_while_connecting_is_noop quiet_env overlapping_reconnect);
    reflexivity.
Defined.

(** ** Closing: retry, or exit *)

Lemma close_listener env code s :
  on_connection_update env (Some "close") code s =
  if shouldReconnect env code && shouldRetry (retryCount s) then
    (Ret tt, retried s,
     [logger_info ("Reconnecting... Attempt " +:+ pretty (retryCount s + 1));
      setTimeout 5000])
  else
    (Exit 1, with_isConnecting false s,
     [logger_error "Connection terminated"; process_exit 1]).
Proof.
  unfold on_connection_update. unfold_m. simpl.
  by destruct (shouldReconnect env code && shouldRetry (retryCount s)).
Qed.

Lemma shouldReconnect_loggedOut env : shouldReconnect env (Some (loggedOut env)) = false.
Proof. unfold shouldReconnect. by rewrite Z.eqb_refl. Qed.

(** C5: a close whose status code is [DisconnectReason.loggedOut] ends in
    [process.exit(1)] whatever [retryCount] is, and sets no timer: the only
    calls are the log line and the exit, the counter is left as it was, and
    the running process is exited with status 1 with the timers it had. *)
Theorem loggedOut_close_exits env (p : Process) :
  exited p = None →
  on_connection_update env (Some "close") (Some (loggedOut env)) (vars p)
  = (Exit 1, with_isConnecting false (vars p),
     [logger_error "Connection terminated"; process_exit 1]) ∧
  let q := deliver env (connection_update (Some "close") (Some (loggedOut env))) p in
  exited q = Some 1 ∧ timers q = timers p ∧ exits q = S (exits p) ∧
  retryCount (vars q) = retryCount (vars p).
Proof.
  intros Hx.
  assert (Hl := close_listener env (Some (loggedOut env)) (vars p)).
  rewrite shouldReconnect_loggedOut in Hl. simpl in Hl.
  split; [done|]. unfold deliver. rewrite Hx. simpl.
  unfold try_catch. rewrite Hl. simpl. unfold exits. simpl.
  rewrite filter_app, length_app. simpl. repeat split; lia.
Qed.

Lemma loggedOut_close_exits_witness :
  exited (boot quiet_env ∅) = None ∧
  retryCount (vars (boot quiet_env ∅)) = 0 ∧
  let q := deliver quiet_env (connection_update (Some "close") (Some 401))
             (boot quiet_env ∅) in
  exited q = Some 1 ∧ timers q = 0%nat ∧ exits q = 1%nat ∧
  retryCount (vars q) = 0.
Proof.
  split; [reflexivity|]. split; [reflexivity|].
  exact (proj2 (loggedOut_close_exits quiet_env (boot quiet_env ∅) eq_refl)).
Defined.

Lemma connect_try_preserves env (P : State → Prop) :
  (∀ s, P s → P (tock s)) →
  (∀ v s, P s → P (with_sock v s)) →
  preserves P (λ c, is_transport_call c = true) (connect_try env).
Proof.
  intros Htock Hsock. unfold connect_try.
  repeat first
    [ apply preserves_bind; [|intros ?]
    | apply preserves_call; [done|done]
    | apply preserves_get
    | apply preserves_ret
    | apply preserves_modify; intros ??; by apply Hsock ].
Qed.

Lemma connect_catch_eq (err : Error) (s : State) :
  connect_catch err s =
  if shouldRetry (retryCount s) then
    (Ret None, retried s, [logger_error "Connection error:"; setTimeout 5000])
  else
    (Exit 1, with_isConnecting false s,
     [logger_error "Connection error:"; process_exit 1]).
Proof.
  unfold connect_catch. unfold_m. simpl.
  by destruct (shouldRetry (retryCount s)).
Qed.

(** C3: the retry test holds exactly for the counts below 5.  A close, in
    whatever state it arrives, is retried when it is no log-out and the
    counter is below 5: the counter goes up by one and one reconnect is
    scheduled, 5000 ms later; with the counter at 5 or more it ends in
    [process.exit(1)] with no timer set, whatever its status code.  A
    connect whose [try] block throws decides on the counter in the same
    way ([t1], the calls of the [try] block, holds transport calls only). *)
Theorem retry_iff_below_five env (n : Z) (s : State) code :
  (shouldRetry n = true ↔ n < 5) ∧
  (shouldRetry n = false ↔ 5 ≤ n) ∧
  on_connection_update env (Some "close") code s
  = (if shouldReconnect env code && shouldRetry (retryCount s) then
       (Ret tt, with_retryCount (retryCount s + 1) (with_isConnecting false s),
        [logger_info ("Reconnecting... Attempt " +:+ pretty (retryCount s + 1));
         setTimeout 5000])
     else
       (Exit 1, with_isConnecting false s,
        [logger_error "Connection terminated"; process_exit 1])) ∧
  (∀ e s1 t1,
     isConnecting s = false →
     connect_try env (with_isConnecting true s) = (Throw e, s1, t1) →
     connectToWhatsApp env s
     = (if shouldRetry (retryCount s) then
          (Ret None, with_retryCount (retryCount s + 1) (with_isConnecting false s1),
           t1 ++ [logger_error "Connection error:"; setTimeout 5000])
        else
          (Exit 1, with_isConnecting false s1,
           t1 ++ [logger_error "Connection error:"; process_exit 1])) ∧
     Forall (λ c, is_transport_call c = true) t1).
Proof.
  split; [apply shouldRetry_true|]. split; [apply shouldRetry_false|].
  split; [apply close_listener|].
  intros e s1 t1 Hc Htry.
  destruct (connect_try_preserves env (λ x, retryCount x = retryCount s)) with
    (s := with_isConnecting true s) as [Hn1 Ht1]; [done..|].
  rewrite Htry in Hn1, Ht1. simpl in Hn1, Ht1.
  split; [|done].
  unfold connectToWhatsApp. cbv [mbind M_bind bind get]. rewrite Hc.
  cbv [set_isConnecting modify try_catch]. rewrite Htry.
  rewrite connect_catch_eq, Hn1. unfold retried. rewrite Hn1.
  by destruct (shouldRetry (retryCount s)).
Qed.

Lemma retry_iff_below_five_witness :
  let s4 := with_retryCount 4 (fresh ∅) in
  let s5 := with_retryCount 5 (fresh ∅) in
  let connecting := with_isConnecting true s5 in
  (shouldRetry 4 = true ∧
   connectToWhatsApp unreachable_env s4
   = (Ret None,
      with_retryCount 5 (with_isConnecting false (tock (tock (tock (with_isConnecting true s4))))),
      [useMultiFileAuthState; fetchLatestBaileysVersion; makeWASocket;
       logger_error "Connection error:"; setTimeout 5000])) ∧
  (shouldRetry 5 = false ∧
   on_connection_update unreachable_env (Some "close") (Some 428) connecting
   = (Exit 1, with_isConnecting false connecting,
      [logger_error "Connection terminated"; process_exit 1]) ∧
   connectToWhatsApp unreachable_env s5
   = (Exit 1, with_isConnecting false (tock (tock (tock (with_isConnecting true s5)))),
      [useMultiFileAuthState; fetchLatestBaileysVersion; makeWASocket;
       logger_error "Connection error:"; process_exit 1])).
Proof.
  split.
  - pose proof (retry_iff_below_five unreachable_env 4 (with_retryCount 4 (fresh ∅))
                  (Some 428)) as (_ & _ & _ & Hcatch).
    split; [reflexivity|].
    exact (proj1 (Hcatch (new_Error "ECONNREFUSED")
                    (tock (tock (tock (with_isConnecting true (with_retryCount 4 (fresh ∅))))))
                    [useMultiFileAuthState; fetchLatestBaileysVersion; makeWASocket]
                    eq_refl eq_refl)).
  - split; [reflexivity|]. split.
    + exact (proj1 (proj2 (proj2 (retry_iff_below_five unreachable_env 5
                (with_isConnecting true (with_retryCount 5 (fresh ∅))) (Some 428))))).
    + pose proof (retry_iff_below_five unreachable_env 5 (with_retryCount 5 (fresh ∅))
                    (Some 428)) as (_ & _ & _ & Hcatch).
      exact (proj1 (Hcatch (new_Error "ECONNREFUSED")
                      (tock (tock (tock (with_isConnecting true (with_retryCount 5 (fresh ∅))))))
                      [useMultiFileAuthState; fetchLatestBaileysVersion; makeWASocket]
                      eq_refl eq_refl)).
Defined.

(** ** Routing *)

(** C9: a message batch whose [type] is not ['notify'] is dropped: the
    listener returns without a call, so neither handler sees a message of
    it, and the variables are as before. *)
Theorem non_notify_batch_is_dropped env (messages : list WAMessage) (type : string) s :
  type ≠ "notify" →
  on_messages_upsert env messages type s = (Ret tt, s, []).
Proof.
  intros Hn. unfold on_messages_upsert.
  by rewrite bool_decide_eq_false_2.
Qed.

Lemma non_notify_batch_is_dropped_witness :
  "append" ≠ "notify" ∧
  on_messages_upsert quiet_env ["m1"; "m2"] "append" (vars (boot quiet_env ∅))
  = (Ret tt, vars (boot quiet_env ∅), []).
Proof.
  split; [discriminate|].
  apply (non_notify_batch_is_dropped quiet_env). discriminate.
Defined.

Lemma route_message_returns env msg s :
  ∃ s' t, route_message env msg s = (Ret tt, s', t) ∧ handled_messages t = [msg].
Proof.
  unfold route_message, call. unfold_m.
  destruct (throws env (tick s) _); simpl; [by eauto|].
  destruct (throws env (S (tick s)) _); simpl; by eauto.
Qed.

Lemma notify_batch_cons env msg rest s :
  on_messages_upsert env (msg :: rest) "notify" s =
  let '(_, s1, t1) := route_message env msg s in
  let '(r, s2, t2) := on_messages_upsert env rest "notify" s1 in
  (r, s2, t1 ++ t2).
Proof.
  unfold on_messages_upsert. simpl.
  destruct (route_message_returns env msg s) as (s1 & t1 & Hr & _).
  unfold mbind, M_bind, bind. by rewrite Hr.
Qed.

Lemma notify_batch_returns env messages s :
  ∃ s' t, on_messages_upsert env messages "notify" s = (Ret tt, s', t) ∧
          handled_messages t = messages.
Proof.
  revert s. induction messages as [|msg rest IH]; intros s.
  - by exists s, [].
  - rewrite notify_batch_cons.
    destruct (route_message_returns env msg s) as (s1 & t1 & -> & H1).
    destruct (IH s1) as (s2 & t2 & -> & H2).
    exists s2, (t1 ++ t2). split; [done|].
    unfold handled_messages in *. by rewrite omap_app, H1, H2.
Qed.

(** C2, as claimed, fails: the message handler throws on ["m1"], and the
    generic event handler is never called for ["m1"]; the error is logged
    and ["m2"] is routed to both handlers. *)
Lemma sibling_skipped_when_message_handler_throws :
  let s := vars (boot failing_handler_env ∅) in
  let '(r, _, t) := on_messages_upsert failing_handler_env ["m1"; "m2"] "notify" s in
  throws failing_handler_env (tick s) (handleMessage (sock s) "m1") ≠ None ∧
  r = Ret tt ∧
  t = [handleMessage (Some 0%nat) "m1";
       logger_error "Message handling failed:";
       handleMessage (Some 0%nat) "m2";
       handleEvent (Some 0%nat) (Ev_message "m2")] ∧
  ∀ sk, handleEvent sk (Ev_message "m1") ∉ t.
Proof.
  vm_compute. split; [discriminate|]. split; [reflexivity|]. split; [reflexivity|].
  intros sk Hin.
  repeat (apply elem_of_cons in Hin as [Hin|Hin]; [discriminate|]).
  by apply elem_of_nil in Hin.
Qed.

(** C2, amended: when the message handler throws on a message of a
    ['notify'] batch, the error is caught and logged, the generic event
    handler is not called for that message, and the rest of the batch is
    routed from there on; whatever throws, the listener returns and every
    message of the batch has reached the message handler, in order. *)
Theorem message_handler_failure_is_contained env (msg : WAMessage) (rest : list WAMessage) s e :
  throws env (tick s) (handleMessage (sock s) msg) = Some e →
  route_message env msg s
  = (Ret tt, tock s,
     [handleMessage (sock s) msg; logger_error "Message handling failed:"]) ∧
  (∃ s' t,
     on_messages_upsert env rest "notify" (tock s) = (Ret tt, s', t) ∧
     handled_messages t = rest ∧
     on_messages_upsert env (msg :: rest) "notify" s
     = (Ret tt, s',
        [handleMessage (sock s) msg; logger_error "Message handling failed:"] ++ t)).
Proof.
  intros Ht.
  assert (Hr : route_message env msg s
               = (Ret tt, tock s,
                  [handleMessage (sock s) msg; logger_error "Message handling failed:"])).
  { unfold route_message, call. unfold_m. by rewrite Ht. }
  split; [done|].
  destruct (notify_batch_returns env rest (tock s)) as (s' & t & Hrest & Hh).
  exists s', t. split; [done|]. split; [done|].
  by rewrite notify_batch_cons, Hr, Hrest.
Qed.

Lemma message_handler_failure_is_contained_witness :
  let s := vars (boot failing_handler_env ∅) in
  throws failing_handler_env (tick s) (handleMessage (sock s) "m1")
  = Some (new_Error "boom") ∧
  route_message failing_handler_env "m1" s
  = (Ret tt, tock s,
     [handleMessage (sock s) "m1"; logger_error "Message handling failed:"]).
Proof.
  split; [reflexivity|].
  exact (proj1 (message_handler_failure_is_contained failing_handler_env
                  "m1" ["m2"] (vars (boot failing_handler_env ∅)) _ eq_refl)).
Defined.

(** The two group listeners have no [try]: a handler that throws on
    ["g1"] ends the loop over the batch, ["g2"] is not routed, and the
    rejection is logged by the process-level handler. *)
Example group_update_failure_escapes :
  let p := boot failing_group_handler_env ∅ in
  (on_groups_update failing_group_handler_env ["g1"; "g2"] (vars p)).1.1
  = Throw (new_Error "boom") ∧
  calls (deliver failing_group_handler_env (groups_update ["g1"; "g2"]) p)
  = calls p ++ [handleGroupUpdate (Some 0%nat) "g1"; logger_error "Unhandled rejection:"] ∧
  exited (deliver failing_group_handler_env (groups_update ["g1"; "g2"]) p) = None.
Proof. by vm_compute. Qed.

(** The generic handler is not called for every update: when the message
    handler throws, the listener is left before line 181 is reached, and
    the only call made is that of the message handler. *)
Lemma group_join_dropped_when_message_handler_throws :
  let s := vars (boot closed_session_env ∅) in
  throws closed_session_env (tick s) (handleGroupParticipantsUpdate (sock s) one_joined)
  = Some (new_Error "Error: Session closed, reconnect") ∧
  on_group_participants_update closed_session_env one_joined s
  = (Throw (new_Error "Error: Session closed, reconnect"), tock s,
     [handleGroupParticipantsUpdate (Some 0%nat) one_joined]).
Proof. by vm_compute. Qed.

(** C10: when the message handler returns, the [group-participants.update]
    listener calls the generic event handler, once, with the group id and
    [participants[0]] alone, [undefined] for an empty list, whatever
    follows the first participant: its calls are that of the message
    handler and this one call of the generic handler.  When the message
    handler throws, the listener throws the same error and the generic
    handler is not called. *)
Theorem group_join_passes_first_participant env (update : ParticipantsUpdate) s :
  let '(r, s', t) := on_group_participants_update env update s in
  (throws env (tick s) (handleGroupParticipantsUpdate (sock s) update) = None →
   t = [handleGroupParticipantsUpdate (sock s) update;
        handleEvent (sock s) (Ev_groupMemberJoin (id update) (first_participant update))]) ∧
  (∀ e, throws env (tick s) (handleGroupParticipantsUpdate (sock s) update) = Some e →
        r = Throw e ∧ s' = tock s ∧ t = [handleGroupParticipantsUpdate (sock s) update]) ∧
  (participants update = [] → first_participant update = None) ∧
  (∀ first others, participants update = first :: others →
                   first_participant update = Some first).
Proof.
  unfold on_group_participants_update, call. unfold_m.
  assert (Hhd : participants update !! 0%nat = first_participant update).
  { unfold first_participant. by destruct (participants update). }
  rewrite Hhd.
  assert (Hfirst : (participants update = [] → first_participant update = None) ∧
                   (∀ first others, participants update = first :: others →
                                    first_participant update = Some first)).
  { unfold first_participant. split; [by intros ->|by intros ?? ->]. }
  destruct (throws env (tick s) _) as [e|]; simpl.
  - split; [done|]. split; [|done]. by intros ? [= <-].
  - destruct (throws env (S (tick s)) _); simpl; (split; [done|]); by split.
Qed.

Lemma group_join_passes_first_participant_witness :
  let s := vars (boot quiet_env ∅) in
  let several := {| id := "g@g.us"; participants := ["a"; "b"; "c"]; action := "add" |} in
  let none := {| id := "g@g.us"; participants := []; action := "add" |} in
  (on_group_participants_update quiet_env several s).2
  = [handleGroupParticipantsUpdate (Some 0%nat) several;
     handleEvent (Some 0%nat) (Ev_groupMemberJoin "g@g.us" (Some "a"))] ∧
  (on_group_participants_update quiet_env none s).2
  = [handleGroupParticipantsUpdate (Some 0%nat) none;
     handleEvent (Some 0%nat) (Ev_groupMemberJoin "g@g.us" None)] ∧
  (on_group_participants_update closed_session_env several s).1.1
  = Throw (new_Error "Error: Session closed, reconnect") ∧
  (on_group_participants_update closed_session_env several s).2
  = [handleGroupParticipantsUpdate (Some 0%nat) several].
Proof.
  split; [|split].
  - exact (proj1 (group_join_passes_first_participant quiet_env
                    {| id := "g@g.us"; participants := ["a"; "b"; "c"]; action := "add" |}
                    (vars (boot quiet_env ∅))) eq_refl).
  - exact (proj1 (group_join_passes_first_participant quiet_env
                    {| id := "g@g.us"; participants := []; action := "add" |}
                    (vars (boot quiet_env ∅))) eq_refl).
  - pose proof (proj1 (proj2 (group_join_passes_first_participant closed_session_env
                    {| id := "g@g.us"; participants := ["a"; "b"; "c"]; action := "add" |}
                    (vars (boot quiet_env ∅))))
                  (new_Error "Error: Session closed, reconnect") eq_refl) as (Hr & _ & Ht).
    split; [exact Hr|exact Ht].
Defined.

(** ** Bootstrapping the credentials *)

Lemma processSessionData_returns env s :
  ∃ b s' t, processSessionData env s = (Ret b, s', t).
Proof.
  unfold processSessionData.
  destruct (SESSION_DATA env) as [[|a blob]|]; [by eauto| |by eauto].
  unfold call. unfold_m.
  destruct (base64_toString env _) as [e|text]; simpl; [by eauto|].
  destruct (JSON_parse env text) as [e|data]; simpl; [by eauto|].
  destruct (throws env (tick s) fs_emptyDir); simpl; [by eauto|].
  destruct (throws env (S (tick s)) _); simpl; by eauto.
Qed.

(** A valid blob is not enough for the bootstrap to return [true]: on a
    disk that cannot be written the blob decodes and parses, the directory
    is emptied, [fs.writeJSON] throws, and [processSessionData] returns
    [false]. *)
Lemma valid_blob_on_full_disk_returns_false :
  SESSION_DATA full_disk_env = Some "{new}" ∧
  base64_toString full_disk_env "{new}" = inr "{new}" ∧
  JSON_parse full_disk_env "{new}" = inr "{new}" ∧
  (processSessionData full_disk_env (fresh old_session)).1.1 = Ret false ∧
  (processSessionData full_disk_env (fresh old_session)).2
  = [fs_emptyDir; fs_writeJSON "creds.json" "{new}";
     logger_error "Session data processing failed:"].
Proof. by vm_compute. Qed.

(** C8: [processSessionData] always returns, it never throws or exits.
    On a blob that does not decode, or does not parse, it returns [false]
    with the variables, the credential directory among them, as they were,
    and no call but the log line (not even that for an empty blob).  On a
    blob that decodes to the document [data], when [fs.emptyDir] and
    [fs.writeJSON] both return, it empties the credential directory, then
    writes [creds.json], and returns [true]: the directory holds that one
    file, whatever it held before.  When one of the two throws, it logs
    and returns [false]: with the directory as it was when it is
    [fs.emptyDir] that throws, emptied when it is [fs.writeJSON]. *)
Theorem session_bootstrap env (blob : string) (s : State) :
  SESSION_DATA env = Some blob →
  (∃ b s' t, processSessionData env s = (Ret b, s', t)) ∧
  (malformed env blob →
   processSessionData env s
   = (Ret false, s,
      if bool_decide (blob = "") then []
      else [logger_error "Session data processing failed:"])) ∧
  (∀ text data,
     blob ≠ "" →
     base64_toString env blob = inr text →
     JSON_parse env text = inr data →
     (throws env (tick s) fs_emptyDir = None →
      throws env (S (tick s)) (fs_writeJSON "creds.json" data) = None →
      ∃ s', processSessionData env s
            = (Ret true, s', [fs_emptyDir; fs_writeJSON "creds.json" data]) ∧
            sessionFiles s' = {["creds.json" := JSON_stringify env data]} ∧
            ∀ file, file ≠ "creds.json" → sessionFiles s' !! file = None) ∧
     (∀ e, throws env (tick s) fs_emptyDir = Some e →
           processSessionData env s
           = (Ret false, tock s,
              [fs_emptyDir; logger_error "Session data processing failed:"])) ∧
     (∀ e, throws env (tick s) fs_emptyDir = None →
           throws env (S (tick s)) (fs_writeJSON "creds.json" data) = Some e →
           processSessionData env s
           = (Ret false, tock (with_sessionFiles ∅ (tock s)),
              [fs_emptyDir; fs_writeJSON "creds.json" data;
               logger_error "Session data processing failed:"]))).
Proof.
  intros Hblob. split; [apply processSessionData_returns|]. split.
  - unfold malformed, processSessionData. rewrite Hblob. intros Hbad.
    destruct blob as [|a blob]; [done|].
    unfold_m.
    destruct (base64_toString env _) as [e|text]; simpl; [done|].
    by destruct (JSON_parse env text) as [e|data].
  - intros text data Hne Hdec Hparse.
    unfold processSessionData. rewrite Hblob.
    destruct blob as [|a blob]; [done|].
    unfold call. unfold_m. rewrite Hdec. simpl. rewrite Hparse. simpl.
    split; [|split].
    + intros He Hw. rewrite He. simpl. rewrite Hw. simpl.
      eexists. split; [reflexivity|]. simpl. split; [done|].
      intros file Hfile. by rewrite lookup_insert_ne.
    + intros e He. by rewrite He.
    + intros e He Hw. rewrite He. simpl. by rewrite Hw.
Qed.

Lemma session_bootstrap_witness :
  (processSessionData (session_env "garbage") (fresh old_session)
   = (Ret false, fresh old_session, [logger_error "Session data processing failed:"])) ∧
  (∃ s', processSessionData (session_env "{new}") (fresh old_session)
         = (Ret true, s', [fs_emptyDir; fs_writeJSON "creds.json" "{new}"]) ∧
         sessionFiles s' = {["creds.json" := "{new}"]} ∧
         sessionFiles s' !! "pre-key-1.json" = None) ∧
  (processSessionData full_disk_env (fresh old_session)
   = (Ret false, tock (with_sessionFiles ∅ (tock (fresh old_session))),
      [fs_emptyDir; fs_writeJSON "creds.json" "{new}";
       logger_error "Session data processing failed:"])).
Proof.
  split; [|split].
  - exact (proj1 (proj2 (session_bootstrap (session_env "garbage") "garbage"
                           (fresh old_session) eq_refl)) I).
  - destruct (proj1 (proj2 (proj2 (session_bootstrap (session_env "{new}") "{new}"
                              (fresh old_session) eq_refl))
                "{new}" "{new}" ltac:(discriminate) eq_refl eq_refl) eq_refl eq_refl)
      as (s' & Hs' & Hfiles & Hother).
    exists s'. split; [exact Hs'|]. split; [exact Hfiles|].
    apply Hother. discriminate.
  - exact (proj2 (proj2 (proj2 (proj2 (session_bootstrap full_disk_env "{new}"
                              (fresh old_session) eq_refl))
                "{new}" "{new}" ltac:(discriminate) eq_refl eq_refl))
             (new_Error "ENOSPC") eq_refl eq_refl).
Defined.

(** ** Opening: the counter, and the start-up message *)

Lemma sendStartupMessage_eq env jid s :
  formats env →
  sendStartupMessage env jid s =
  (Ret tt, tock s,
   startup_send env s jid ::
   match throws env (tick s) (startup_send env s jid) with
   | Some _ => [logger_error "Failed to send startup message:"]
   | None => []
   end).
Proof.
  intros Hf. destruct (Hf (tick s)) as (time & date & Ht & Hd).
  unfold sendStartupMessage, call, startup_send. unfold_m.
  rewrite Ht, Hd. simpl.
  by destruct (throws env (tick s) _).
Qed.

Lemma notify_owners env owners s :
  formats env →
  for_of owners (sendStartupMessage env) s
  = (Ret tt, Nat.iter (length owners) tock s, startup_calls env s owners).
Proof.
  intros Hf. revert s. induction owners as [|jid rest IH]; intros s; [done|].
  simpl for_of. unfold mbind, M_bind, bind.
  rewrite sendStartupMessage_eq, IH by done. simpl.
  by rewrite <- Nat.iter_succ_r.
Qed.

Lemma recipients_startup_calls env s owners :
  recipients (startup_calls env s owners) = owners.
Proof.
  revert s. induction owners as [|jid rest IH]; intros s; [done|].
  simpl. unfold recipients in *. simpl. f_equal.
  rewrite omap_app, IH. by destruct (throws env (tick s) _).
Qed.

Lemma startup_calls_quiet env s owners :
  filter is_setTimeout (startup_calls env s owners) = [] ∧
  filter is_process_exit (startup_calls env s owners) = [].
Proof.
  revert s. induction owners as [|jid rest IH]; intros s; [done|].
  simpl. rewrite !filter_cons. simpl. rewrite !filter_app.
  destruct (IH (tock s)) as [-> ->].
  by destruct (throws env (tick s) _).
Qed.

Lemma iter_tock_vars n s :
  retryCount (Nat.iter n tock s) = retryCount s ∧
  isConnecting (Nat.iter n tock s) = isConnecting s ∧
  initialConnection (Nat.iter n tock s) = initialConnection s ∧
  sock (Nat.iter n tock s) = sock s.
Proof. induction n as [|n IH]; [done|]. simpl. apply IH. Qed.

Lemma open_listener_split env code s :
  on_connection_update env (Some "open") code s =
  let '(r, s', t) := notify_owners_once env (opened s) in
  (r, s', logger_info "Connected to WhatsApp" :: t).
Proof.
  unfold on_connection_update, notify_owners_once.
  cbv [mbind M_bind bind mret M_ret ret get modify emit set_retryCount
       set_isConnecting set_initialConnection]. simpl.
  destruct (initialConnection s); [|done].
  by destruct (for_of _ _ _) as [[[] ?] ?].
Qed.

Lemma open_listener_again env code s :
  initialConnection s = false →
  on_connection_update env (Some "open") code s
  = (Ret tt, opened s, [logger_info "Connected to WhatsApp"]).
Proof.
  intros Hi. rewrite open_listener_split. unfold notify_owners_once.
  cbv [mbind M_bind bind mret M_ret ret get]. simpl. by rewrite Hi.
Qed.

Lemma open_listener_first env code s :
  formats env →
  initialConnection s = true →
  on_connection_update env (Some "open") code s
  = (Ret tt,
     Nat.iter (length (bot_ownerNumber env)) tock (with_initialConnection false (opened s)),
     logger_info "Connected to WhatsApp" ::
     startup_calls env (with_initialConnection false (opened s)) (bot_ownerNumber env)).
Proof.
  intros Hf Hi. rewrite open_listener_split. unfold notify_owners_once.
  cbv [mbind M_bind bind mret M_ret ret get modify set_initialConnection].
  simpl. rewrite Hi. by rewrite notify_owners.
Qed.

Lemma harmless_filter t :
  Forall harmless t → filter is_setTimeout t = [] ∧ filter is_process_exit t = [].
Proof.
  induction 1 as [|c t [H1 H2] _ [IH1 IH2]]; [done|].
  by rewrite !filter_cons, IH1, IH2, H1, H2.
Qed.

(** What the open branch does to the variables, whether or not the owners
    can be told. *)
Lemma open_listener_vars env code s :
  let '(r, s', t) := on_connection_update env (Some "open") code s in
  retryCount s' = 0 ∧ isConnecting s' = false ∧ initialConnection s' = false ∧
  sock s' = sock s ∧ Forall harmless t ∧ ∀ c, r ≠ Exit c.
Proof.
  rewrite open_listener_split.
  assert (Hp : preserves
                 (λ x, retryCount x = 0 ∧ isConnecting x = false ∧
                       initialConnection x = false ∧ sock x = sock s)
                 harmless
                 (for_of (bot_ownerNumber env) (sendStartupMessage env))).
  { unfold sendStartupMessage. repeat preserves_step. }
  assert (Hx : ∀ s0 c, (notify_owners_once env s0).1.1 ≠ Exit c).
  { intros s0 c H.
    assert (Hc : exit_checked (λ _, False) (notify_owners_once env)).
    { unfold notify_owners_once, sendStartupMessage, set_initialConnection.
      repeat exit_checked_step. }
    exact (Hc s0 c H). }
  specialize (Hx (opened s)).
  unfold notify_owners_once in *.
  cbv [mbind M_bind bind mret M_ret ret get modify set_initialConnection] in *.
  simpl in *. destruct (initialConnection s) eqn:Hi.
  - specialize (Hp (with_initialConnection false (opened s))).
    destruct (for_of _ _ _) as [[r s'] t]. simpl in *.
    destruct Hp as [(? & ? & ? & ?) Ht]; [done|].
    repeat split; try done. by constructor.
  - repeat split; try done. by repeat constructor.
Qed.

(** ** Turns of the event loop *)

Lemma connect_succeeds env s :
  connects env →
  isConnecting s = false →
  connectToWhatsApp env s = (Ret (Some (next_sock (sock s))), connected s, transport_calls).
Proof.
  intros Hconn Hc.
  unfold connectToWhatsApp, connect_try, call. unfold_m.
  rewrite Hc. simpl. by rewrite !Hconn.
Qed.

Lemma deliver_exited env e p : exited p ≠ None → deliver env e p = p.
Proof. unfold deliver. by destruct (exited p). Qed.

Lemma run_exited env events p : exited p ≠ None → run env events p = p.
Proof.
  revert p. induction events as [|e rest IH]; intros p Hx; [done|].
  unfold run in *. simpl. rewrite deliver_exited by done. by apply IH.
Qed.

Lemma deliver_close_retry env code p :
  exited p = None →
  shouldReconnect env code = true →
  shouldRetry (retryCount (vars p)) = true →
  deliver env (connection_update (Some "close") code) p
  = {| vars := retried (vars p); exited := None; timers := S (timers p);
       calls := calls p ++
                [logger_info ("Reconnecting... Attempt " +:+ pretty (retryCount (vars p) + 1));
                 setTimeout 5000] |}.
Proof.
  intros Hx Hcode Hn. unfold deliver. rewrite Hx. simpl.
  unfold try_catch. rewrite close_listener, Hcode, Hn. simpl.
  f_equal. lia.
Qed.

Lemma deliver_close_exit env code p :
  exited p = None →
  shouldReconnect env code && shouldRetry (retryCount (vars p)) = false →
  deliver env (connection_update (Some "close") code) p
  = {| vars := with_isConnecting false (vars p); exited := Some 1; timers := timers p;
       calls := calls p ++ [logger_error "Connection terminated"; process_exit 1] |}.
Proof.
  intros Hx Hn. unfold deliver. rewrite Hx. simpl.
  unfold try_catch. rewrite close_listener, Hn. simpl.
  f_equal. lia.
Qed.

Lemma rejection_vars err s :
  let '(r, s', t) := rejection err s in
  s' = s ∧ filter is_setTimeout t = [] ∧ (r = Ret tt ∨ r = Exit 1).
Proof.
  unfold rejection, unhandledRejection, uncaughtException. unfold_m.
  destruct err as [|[|text|[[]|]]]; simpl; auto.
  destruct (includes "Session closed" text); simpl; auto.
Qed.

Lemma deliver_returns env e p s t :
  exited p = None →
  is_timeout e = false →
  listener env e (vars p) = (Ret tt, s, t) →
  deliver env e p
  = {| vars := s; exited := None;
       timers := (timers p + length (filter is_setTimeout t))%nat;
       calls := calls p ++ t |}.
Proof.
  intros Hx He Hl. unfold deliver. rewrite Hx.
  unfold try_catch. rewrite Hl. by destruct e.
Qed.

(** An open delivered to a running process, whether or not the owners can
    be told. *)
Lemma deliver_open_vars env code p :
  exited p = None →
  let q := deliver env (connection_update (Some "open") code) p in
  retryCount (vars q) = 0 ∧ isConnecting (vars q) = false ∧
  initialConnection (vars q) = false ∧ sock (vars q) = sock (vars p) ∧
  timers q = timers p.
Proof.
  intros Hx. unfold deliver. rewrite Hx. simpl.
  pose proof (open_listener_vars env code (vars p)) as Ho.
  unfold try_catch.
  destruct (on_connection_update env (Some "open") code (vars p)) as [[r s'] t].
  destruct Ho as (Hn & Hc & Hi & Hs & Ht & Hr).
  destruct (harmless_filter t Ht) as [Hq _].
  destruct r as [[]|err|c]; simpl.
  - rewrite Hq. simpl. repeat split; try done; lia.
  - pose proof (rejection_vars err s') as Hrej.
    destruct (rejection err s') as [[r2 s2] t2].
    destruct Hrej as (-> & Hq2 & _). simpl.
    rewrite filter_app, length_app, Hq, Hq2. simpl. repeat split; try done; lia.
  - by destruct (Hr c).
Qed.

Lemma deliver_timeout env p :
  connects env →
  exited p = None →
  deliver env timeout p
  = match timers p with
    | O => p
    | S k =>
        if isConnecting (vars p) then
          {| vars := vars p; exited := None; timers := k; calls := calls p |}
        else
          {| vars := connected (vars p); exited := None; timers := k;
             calls := calls p ++ transport_calls |}
    end.
Proof.
  intros Hconn Hx. unfold deliver. rewrite Hx.
  destruct (timers p) as [|k]; [done|].
  destruct (isConnecting (vars p)) eqn:Hc.
  - unfold listener, connectToWhatsApp. unfold_m. rewrite Hc. simpl.
    rewrite app_nil_r. f_equal. lia.
  - unfold listener. cbv [try_catch mbind M_bind bind].
    rewrite connect_succeeds by done. simpl. f_equal. lia.
Qed.

Lemma exits_app p t :
  length (filter is_process_exit (calls p ++ t))
  = (exits p + length (filter is_process_exit t))%nat.
Proof. unfold exits. by rewrite filter_app, length_app. Qed.

(** C6: whenever the socket reports [open], in whatever state and
    environment, the listener ends with [retryCount] at 0 and
    [isConnecting] cleared, and so does a running process the event is
    delivered to.  From a running process whose counter is 0, where the
    socket can be rebuilt: after one close that is not a log-out the counter
    reads 1 and a timer is set, once the timer has fired and the socket is
    being rebuilt it still reads 1 with [isConnecting] set, and after the
    open it reads 0. *)
Theorem open_resets_retry_counter env code (p : Process) :
  (∀ s code',
     retryCount (on_connection_update env (Some "open") code' s).1.2 = 0 ∧
     isConnecting (on_connection_update env (Some "open") code' s).1.2 = false) ∧
  (exited p = None →
   ∀ code',
     retryCount (vars (deliver env (connection_update (Some "open") code') p)) = 0 ∧
     isConnecting (vars (deliver env (connection_update (Some "open") code') p)) = false) ∧
  (connects env →
   exited p = None →
   retryCount (vars p) = 0 →
   shouldReconnect env code = true →
   let p1 := deliver env (connection_update (Some "close") code) p in
   let p2 := deliver env timeout p1 in
   let p3 := deliver env (connection_update (Some "open") None) p2 in
   (retryCount (vars p1) = 1 ∧ isConnecting (vars p1) = false ∧
    timers p1 = S (timers p) ∧ exited p1 = None) ∧
   (retryCount (vars p2) = 1 ∧ isConnecting (vars p2) = true ∧
    timers p2 = timers p ∧ exited p2 = None) ∧
   (retryCount (vars p3) = 0 ∧ isConnecting (vars p3) = false)).
Proof.
  split.
  { intros s code'. pose proof (open_listener_vars env code' s) as Ho.
    destruct (on_connection_update env (Some "open") code' s) as [[r s'] t].
    by destruct Ho as (? & ? & _). }
  split.
  { intros Hx code'.
    by destruct (deliver_open_vars env code' p Hx) as (? & ? & _). }
  intros Hconn Hx Hn Hcode p1 p2 p3.
  assert (H1 : p1 = {| vars := retried (vars p); exited := None; timers := S (timers p);
                       calls := calls p ++
                         [logger_info ("Reconnecting... Attempt " +:+ pretty (retryCount (vars p) + 1));
                          setTimeout 5000] |}).
  { apply deliver_close_retry; [done..|]. rewrite Hn. done. }
  assert (H2 : p2 = {| vars := connected (vars p1); exited := None; timers := timers p;
                       calls := calls p1 ++ transport_calls |}).
  { unfold p2. rewrite deliver_timeout by (done || by rewrite H1). by rewrite H1. }
  split; [rewrite H1; simpl; split; [lia|done]|].
  split; [rewrite H2, H1; simpl; split; [lia|done]|].
  destruct (deliver_open_vars env None p2) as (? & ? & _); [by rewrite H2|].
  done.
Qed.

Lemma open_resets_retry_counter_witness :
  let p := boot quiet_env ∅ in
  let p1 := deliver quiet_env transient_close p in
  let p2 := deliver quiet_env timeout p1 in
  let p3 := deliver quiet_env (connection_update (Some "open") None) p2 in
  (exited p = None ∧ retryCount (vars p) = 0) ∧
  (retryCount (vars p1) = 1 ∧ isConnecting (vars p1) = false ∧
   timers p1 = S (timers p) ∧ exited p1 = None) ∧
  (retryCount (vars p2) = 1 ∧ isConnecting (vars p2) = true ∧
   timers p2 = timers p ∧ exited p2 = None) ∧
  (retryCount (vars p3) = 0 ∧ isConnecting (vars p3) = false).
Proof.
  split; [by vm_compute|].
  exact (proj2 (proj2 (open_resets_retry_counter quiet_env (Some 428) (boot quiet_env ∅)))
           (λ _ _ _, eq_refl) eq_refl eq_refl eq_refl).
Defined.

(** ** Five retries, then the exit *)

Lemma closes_consume_budget env events : ∀ p,
  connects env →
  exited p = None →
  0 ≤ retryCount (vars p) ≤ 5 →
  Forall (λ e, is_transient_close env e || is_timeout e = true) events →
  let q := run env events p in
  if decide (retryCount (vars p) + Z.of_nat (closes env events) ≤ 5) then
    exited q = None ∧ exits q = exits p ∧
    retryCount (vars q) = retryCount (vars p) + Z.of_nat (closes env events)
  else exited q = Some 1 ∧ exits q = S (exits p).
Proof.
  induction events as [|e rest IH]; intros p Hconn Hx Hr Hall.
  { change (closes env []) with 0%nat. change (run env [] p) with p.
    cbv zeta. case_decide; [|lia]. repeat split; [done|lia]. }
  apply Forall_cons in Hall as [He Hrest].
  change (run env (e :: rest) p) with (run env rest (deliver env e p)).
  cbv zeta.
  destruct (is_transient_close env e) eqn:Hclose.
  - destruct e as [connection code| | | | |]; try done. simpl in Hclose.
    apply andb_true_iff in Hclose as [Hcl Hcode].
    apply bool_decide_eq_true in Hcl as ->.
    assert (Hcount : closes env (connection_update (Some "close") code :: rest)
                     = S (closes env rest)).
    { unfold closes. rewrite filter_cons. simpl. rewrite Hcode.
      by rewrite decide_True. }
    rewrite Hcount.
    destruct (decide (retryCount (vars p) < 5)) as [Hlt|Hge].
    + rewrite deliver_close_retry by (done || by apply shouldRetry_true).
      set (p1 := {| vars := retried (vars p) |}).
      specialize (IH p1 Hconn eq_refl).
      assert (Hp1 : retryCount (vars p1) = retryCount (vars p) + 1) by done.
      assert (Hx1 : exits p1 = exits p).
      { unfold exits at 1. unfold p1. simpl. rewrite exits_app. simpl. lia. }
      rewrite Hp1, Hx1 in IH. specialize (IH ltac:(lia) Hrest). simpl in IH.
      repeat case_decide; try lia; intuition lia.
    + rewrite deliver_close_exit;
        [|done|rewrite Hcode; simpl; apply shouldRetry_false; lia].
      rewrite run_exited by done.
      case_decide; [lia|]. split; [done|].
      unfold exits at 1. simpl. rewrite exits_app. simpl. lia.
  - destruct e; try done. clear He Hclose.
    assert (Hcount : closes env (timeout :: rest) = closes env rest).
    { unfold closes. by rewrite filter_cons_False by (by intros []). }
    rewrite Hcount, deliver_timeout by done.
    destruct (timers p) as [|k]; [by apply IH|].
    destruct (isConnecting (vars p)).
    + set (p1 := {| vars := vars p |}).
      specialize (IH p1 Hconn eq_refl Hr Hrest). simpl in IH.
      by repeat case_decide.
    + set (p1 := {| vars := connected (vars p) |}).
      specialize (IH p1 Hconn eq_refl).
      assert (Hp1 : retryCount (vars p1) = retryCount (vars p)) by done.
      assert (Hx1 : exits p1 = exits p).
      { unfold exits at 1. unfold p1. simpl. rewrite exits_app. simpl. lia. }
      rewrite Hp1, Hx1 in IH. specialize (IH Hr Hrest). simpl in IH.
      by repeat case_decide.
Qed.

(** C1, as claimed, fails: after five closes that are not log-outs, with
    or without the reconnects in between, the process has not exited and
    [process.exit] has not been called; the counter reads 5. *)
Lemma five_closes_do_not_exit :
  let p := boot quiet_env ∅ in
  let q := run quiet_env (replicate 5 transient_close) p in
  let q' := run quiet_env five_drops p in
  (retryCount (vars p) = 0 ∧ exited p = None) ∧
  (exited q = None ∧ exits q = 0%nat ∧ retryCount (vars q) = 5 ∧ timers q = 5%nat) ∧
  (exited q' = None ∧ exits q' = 0%nat ∧ retryCount (vars q') = 5 ∧ timers q' = 0%nat).
Proof. by vm_compute. Qed.

(** C1, amended: start from a running process whose counter is 0, in an
    environment where the socket can be rebuilt, and hand it closes that
    are not log-outs and reconnect timers, in any order.  Up to five such
    closes leave the process running, with no call of [process.exit] and
    the counter at the number of closes; from the sixth close on the
    process has exited with status 1 and [process.exit] has been called
    exactly once, whatever follows. *)
Theorem exit_on_sixth_transient_close env (events : list Event) (p : Process) :
  connects env →
  exited p = None →
  retryCount (vars p) = 0 →
  Forall (λ e, is_transient_close env e || is_timeout e = true) events →
  let q := run env events p in
  ((closes env events ≤ 5)%nat →
   exited q = None ∧ exits q = exits p ∧
   retryCount (vars q) = Z.of_nat (closes env events)) ∧
  ((6 ≤ closes env events)%nat →
   exited q = Some 1 ∧ exits q = S (exits p)).
Proof.
  intros Hconn Hx Hn Hall q.
  pose proof (closes_consume_budget env events p Hconn Hx ltac:(lia) Hall) as H.
  cbv zeta in H. fold q in H. rewrite Hn in H.
  split; intros Hc; case_decide; try lia; [|done].
  destruct H as (? & ? & ->). repeat split; [done..|lia].
Qed.

Lemma exit_on_sixth_transient_close_witness :
  let p := boot quiet_env ∅ in
  (exited p = None ∧ retryCount (vars p) = 0 ∧ exits p = 0%nat) ∧
  (exited (run quiet_env five_drops p) = None ∧
   exits (run quiet_env five_drops p) = 0%nat) ∧
  (exited (run quiet_env six_drops p) = Some 1 ∧
   exits (run quiet_env six_drops p) = 1%nat) ∧
  (exits (run quiet_env (six_drops ++ drop_and_redial) p) = 1%nat).
Proof.
  split; [by vm_compute|]. split; [|split].
  - destruct (proj1 (exit_on_sixth_transient_close quiet_env five_drops
                       (boot quiet_env ∅) (λ _ _ _, eq_refl) eq_refl eq_refl
                       ltac:(repeat constructor)))
      as (H1 & H2 & _); [vm_compute; lia|].
    split; [exact H1|exact H2].
  - apply (proj2 (exit_on_sixth_transient_close quiet_env six_drops
                    (boot quiet_env ∅) (λ _ _ _, eq_refl) eq_refl eq_refl
                    ltac:(repeat constructor))).
    vm_compute. lia.
  - apply (proj2 (exit_on_sixth_transient_close quiet_env
                    (six_drops ++ drop_and_redial)
                    (boot quiet_env ∅) (λ _ _ _, eq_refl) eq_refl eq_refl
                    ltac:(repeat constructor))).
    vm_compute. lia.
Defined.

(** ** The start-up message goes out once *)

Lemma on_connection_update_other env connection code s :
  connection ≠ Some "close" → connection ≠ Some "open" →
  on_connection_update env connection code s = (Ret tt, s, []).
Proof.
  intros H1 H2. unfold on_connection_update.
  rewrite !bool_decide_eq_false_2 by done. by unfold_m.
Qed.

Lemma on_connection_update_sends_nothing env connection code (b : bool) :
  connection ≠ Some "open" ∨ b = false →
  preserves (λ x, initialConnection x = b) no_send
    (on_connection_update env connection code).
Proof.
  intros Hb s Hs.
  destruct (decide (connection = Some "close")) as [->|Hclose].
  { rewrite close_listener.
    destruct (_ && _); simpl; (split; [done|by repeat constructor]). }
  destruct (decide (connection = Some "open")) as [->|Hopen].
  { destruct Hb as [?| ->]; [done|].
    rewrite open_listener_again by done. simpl.
    split; [done|by repeat constructor]. }
  rewrite on_connection_update_other by done. simpl. by split; [|constructor].
Qed.

Lemma quiet_listener env e (b : bool) :
  is_open e = false ∨ b = false →
  preserves (λ x, initialConnection x = b) no_send
    (try_catch (listener env e) rejection).
Proof.
  intros Hb. apply preserves_try_catch.
  - destruct e; simpl.
    + apply on_connection_update_sends_nothing.
      destruct Hb as [Hb|Hb]; [left|by right].
      simpl in Hb. by apply bool_decide_eq_false in Hb.
    + by preserves_step.
    + unfold on_messages_upsert, route_message. repeat preserves_step.
    + unfold on_group_participants_update. repeat preserves_step.
    + unfold on_groups_update, route_group_update. repeat preserves_step.
    + unfold connectToWhatsApp, connect_try, connect_catch. repeat preserves_step.
  - intros err. unfold rejection, unhandledRejection, uncaughtException.
    repeat preserves_step.
Qed.

Lemma listener_sends_nothing env e :
  preserves notified no_send (try_catch (listener env e) rejection).
Proof. apply (quiet_listener env e false). by right. Qed.

Lemma recipients_app t1 t2 : recipients (t1 ++ t2) = recipients t1 ++ recipients t2.
Proof. apply omap_app. Qed.

Lemma no_send_recipients t : Forall no_send t → recipients t = [].
Proof.
  induction 1 as [|c t Hc _ IH]; [done|].
  destruct c; try discriminate Hc; exact IH.
Qed.

Lemma deliver_quiet env e p (b : bool) :
  is_open e = false ∨ b = false →
  initialConnection (vars p) = b →
  initialConnection (vars (deliver env e p)) = b ∧
  recipients (calls (deliver env e p)) = recipients (calls p).
Proof.
  intros Hb Hp. unfold deliver.
  destruct (exited p); [done|].
  destruct (quiet_listener env e b Hb (vars p) Hp) as [H1 H2].
  assert (Hrun : ∀ k,
    initialConnection (vars (let '(r, s, t) := try_catch (listener env e) rejection (vars p) in
       {| vars := s;
          exited := match r with Exit code => Some code | _ => None end;
          timers := k t; calls := calls p ++ t |})) = b ∧
    recipients (calls (let '(r, s, t) := try_catch (listener env e) rejection (vars p) in
       {| vars := s;
          exited := match r with Exit code => Some code | _ => None end;
          timers := k t; calls := calls p ++ t |})) = recipients (calls p)).
  { intros k.
    destruct (try_catch (listener env e) rejection (vars p)) as [[r s] t].
    simpl in *. split; [done|].
    by rewrite recipients_app, (no_send_recipients t H2), app_nil_r. }
  destruct e; try apply (Hrun (λ t, (timers p + length (filter is_setTimeout t))%nat)).
  destruct (timers p) as [|k] eqn:Hk; [done|].
  apply (Hrun (λ t, (pred (S k) + length (filter is_setTimeout t))%nat)).
Qed.

Lemma run_sends_nothing env events : ∀ p,
  notified (vars p) →
  recipients (calls (run env events p)) = recipients (calls p).
Proof.
  induction events as [|e rest IH]; intros p Hp; [done|].
  destruct (deliver_quiet env e p false) as [H1 H2]; [by right|done|].
  change (run env (e :: rest) p) with (run env rest (deliver env e p)).
  by rewrite IH.
Qed.

Lemma run_before_open env events : ∀ p,
  Forall (λ e, is_open e = false) events →
  initialConnection (vars p) = true →
  initialConnection (vars (run env events p)) = true ∧
  recipients (calls (run env events p)) = recipients (calls p).
Proof.
  induction events as [|e rest IH]; intros p Hall Hp; [done|].
  apply Forall_cons in Hall as [He Hrest].
  destruct (deliver_quiet env e p true) as [H1 H2]; [by left|done|].
  change (run env (e :: rest) p) with (run env rest (deliver env e p)).
  destruct (IH (deliver env e p) Hrest H1) as [H3 H4].
  split; [done|]. by rewrite H4.
Qed.

Lemma boot_sends_nothing env files :
  initialConnection (vars (boot env files)) = true ∧
  recipients (calls (boot env files)) = [].
Proof.
  assert (Hp : preserves (λ x, initialConnection x = true) no_send (initialize env)).
  { unfold initialize, processSessionData, connectToWhatsApp, connect_try, connect_catch.
    destruct (SESSION_DATA env) as [[|a blob]|]; repeat preserves_step. }
  destruct (Hp (fresh files) eq_refl) as [H1 H2]. unfold boot.
  destruct (initialize env (fresh files)) as [[r s] t]. simpl in *.
  split; [done|]. by apply no_send_recipients.
Qed.

(** C7, as claimed, fails: with a time zone the formatters reject, the
    first open of a process tells no owner (the listener rejects before the
    first send, and the rejection is logged), and no later open makes up
    for it: the flag is already cleared. *)
Lemma invalid_timezone_notifies_nobody :
  let p := boot invalid_timezone_env ∅ in
  let q := deliver invalid_timezone_env (connection_update (Some "open") None) p in
  let r := run invalid_timezone_env
             [transient_close; timeout; connection_update (Some "open") None] q in
  (exited p = None ∧ initialConnection (vars p) = true ∧
   bot_ownerNumber invalid_timezone_env = ["111@s.whatsapp.net"; "222@s.whatsapp.net"]) ∧
  (recipients (calls q) = [] ∧ initialConnection (vars q) = false ∧ exited q = None ∧
   calls q = calls p ++ [logger_info "Connected to WhatsApp";
                         logger_error "Unhandled rejection:"]) ∧
  (recipients (calls r) = [] ∧ exited r = None).
Proof. by vm_compute. Qed.

(** C7, amended: take an environment whose date formatters return, and a
    process started by [initialize].  Before the first [open] it has sent
    nothing.  The first [open] that reaches it while it runs logs the
    connection and then goes through [config.bot.ownerNumber] in order: one
    [sendMessage] per entry, the failure of a send logged before the next
    one starts, none skipped whatever throws, and the process is not
    exited; the recipients of all messages sent are then the configured
    entries, each once.  Whatever events follow, opens among them, no
    further message is sent; and a process that has exited before its first
    open never sends one. *)
Theorem startup_message_once_per_owner env files (before after : list Event) code :
  formats env →
  Forall (λ e, is_open e = false) before →
  let p := run env before (boot env files) in
  let q := deliver env (connection_update (Some "open") code) p in
  recipients (calls p) = [] ∧
  (exited p = None →
   calls q = calls p ++
             logger_info "Connected to WhatsApp" ::
             startup_calls env (with_initialConnection false (opened (vars p)))
               (bot_ownerNumber env) ∧
   exited q = None ∧
   recipients (calls q) = bot_ownerNumber env ∧
   recipients (calls (run env after q)) = bot_ownerNumber env) ∧
  (exited p ≠ None → recipients (calls (run env after q)) = []).
Proof.
  intros Hf Hbefore p q.
  destruct (boot_sends_nothing env files) as [Hb1 Hb2].
  destruct (run_before_open env before (boot env files) Hbefore Hb1) as [Hi Hr].
  fold p in Hi, Hr. rewrite Hb2 in Hr.
  split; [done|]. split.
  - intros Hx.
    assert (Hq : q = {| vars := Nat.iter (length (bot_ownerNumber env)) tock
                                  (with_initialConnection false (opened (vars p)));
                        exited := None;
                        timers := timers p;
                        calls := calls p ++
                                 logger_info "Connected to WhatsApp" ::
                                 startup_calls env (with_initialConnection false (opened (vars p)))
                                   (bot_ownerNumber env) |}).
    { unfold q. erewrite deliver_returns;
        [|done|done|by apply open_listener_first].
      f_equal. rewrite filter_cons_False by (by intros []).
      destruct (startup_calls_quiet env (with_initialConnection false (opened (vars p)))
                  (bot_ownerNumber env)) as [-> _]. simpl. lia. }
    assert (Hsent : recipients (calls q) = bot_ownerNumber env).
    { rewrite Hq. cbn [calls]. rewrite recipients_app, Hr. simpl.
      apply (recipients_startup_calls env). }
    split; [by rewrite Hq|]. split; [by rewrite Hq|]. split; [done|].
    rewrite run_sends_nothing; [done|].
    rewrite Hq. unfold notified. cbn [vars].
    destruct (iter_tock_vars (length (bot_ownerNumber env))
                (with_initialConnection false (opened (vars p)))) as (_ & _ & H & _).
    by rewrite H.
  - intros Hx. unfold q. rewrite deliver_exited, run_exited by done. done.
Qed.

Lemma startup_message_once_per_owner_witness :
  let before := [transient_close; timeout] in
  let after := [transient_close; timeout; connection_update (Some "open") None] in
  let p := run flaky_send_env before (boot flaky_send_env ∅) in
  let q := deliver flaky_send_env (connection_update (Some "open") None) p in
  (exited p = None ∧ recipients (calls p) = []) ∧
  exited q = None ∧
  recipients (calls q) = ["111@s.whatsapp.net"; "222@s.whatsapp.net"] ∧
  recipients (calls (run flaky_send_env after q))
  = ["111@s.whatsapp.net"; "222@s.whatsapp.net"].
Proof.
  split; [by vm_compute|].
  destruct (startup_message_once_per_owner flaky_send_env ∅
              [transient_close; timeout]
              [transient_close; timeout; connection_update (Some "open") None] None)
    as (_ & Hfirst & _).
  - intros t. by eexists _, _.
  - by repeat constructor.
  - destruct (Hfirst ltac:(by vm_compute)) as (_ & Hx & Hr & Hafter).
    split; [exact Hx|]. split; [exact Hr|exact Hafter].
Defined.

(** ** Invariants of every run *)

Lemma listener_exit_checked env e :
  exit_checked fixed_policy (try_catch (listener env e) rejection).
Proof.
  destruct e; unfold listener, unhandledRejection, on_connection_update,
    on_messages_upsert, route_message, on_group_participants_update,
    on_groups_update, route_group_update, connectToWhatsApp, connect_try,
    connect_catch, sendStartupMessage, set_sock, set_retryCount,
    set_isConnecting, set_initialConnection;
    repeat exit_checked_step.
Qed.

Lemma on_connection_update_keeps_policy env connection code :
  preserves within_budget fixed_policy (on_connection_update env connection code).
Proof.
  intros s Hs. unfold within_budget, MAX_RETRIES in *.
  destruct (decide (connection = Some "close")) as [->|Hclose].
  { rewrite close_listener.
    destruct (shouldReconnect env code && shouldRetry (retryCount s)) eqn:Hb; simpl.
    - apply andb_true_iff in Hb as [_ Hb]. apply shouldRetry_true in Hb.
      split; [lia|by repeat constructor].
    - split; [done|by repeat constructor]. }
  destruct (decide (connection = Some "open")) as [->|Hopen].
  { pose proof (open_listener_vars env code s) as Ho.
    destruct (on_connection_update env (Some "open") code s) as [[r s'] t].
    destruct Ho as (Hn & _ & _ & _ & Ht & _). simpl. split; [lia|].
    eapply Forall_impl; [exact Ht|]. intros c [H1 H2]. by destruct c. }
  rewrite on_connection_update_other by done. simpl. by split; [|constructor].
Qed.

Lemma connectToWhatsApp_keeps_policy env :
  preserves within_budget fixed_policy (connectToWhatsApp env).
Proof.
  unfold connectToWhatsApp.
  apply preserves_bind; [apply preserves_get|intros s0].
  destruct (isConnecting s0); [apply preserves_ret|].
  apply preserves_bind; [by preserves_step|intros _].
  apply preserves_try_catch.
  - eapply preserves_weaken; [|by apply connect_try_preserves].
    by intros [].
  - intros err s Hs. rewrite connect_catch_eq.
    unfold within_budget, MAX_RETRIES in *.
    destruct (shouldRetry (retryCount s)) eqn:Hb; simpl.
    + apply shouldRetry_true in Hb. split; [lia|by repeat constructor].
    + split; [done|by repeat constructor].
Qed.

Lemma listener_keeps_policy env e :
  preserves within_budget fixed_policy (try_catch (listener env e) rejection).
Proof.
  apply preserves_try_catch.
  - destruct e; simpl.
    + apply on_connection_update_keeps_policy.
    + by preserves_step.
    + unfold on_messages_upsert, route_message. repeat preserves_step.
    + unfold on_group_participants_update. repeat preserves_step.
    + unfold on_groups_update, route_group_update. repeat preserves_step.
    + apply preserves_bind; [|intros _; apply preserves_ret].
      apply connectToWhatsApp_keeps_policy.
  - intros err. unfold rejection, unhandledRejection, uncaughtException.
    repeat preserves_step.
Qed.

Lemma processSessionData_keeps_policy env :
  preserves within_budget fixed_policy (processSessionData env).
Proof.
  unfold processSessionData.
  destruct (SESSION_DATA env) as [[|a blob]|]; [apply preserves_ret| |apply preserves_ret].
  repeat preserves_step.
Qed.

Lemma initialize_keeps_policy env :
  preserves within_budget fixed_policy (initialize env).
Proof.
  unfold initialize.
  apply preserves_try_catch; [|intros ?; repeat preserves_step].
  repeat first
    [ apply processSessionData_keeps_policy
    | apply connectToWhatsApp_keeps_policy
    | apply preserves_call; [by intros ??|done]
    | apply preserves_bind; [|intros ?] ].
Qed.

Lemma initialize_exit_checked env : exit_checked fixed_policy (initialize env).
Proof.
  unfold initialize, processSessionData, connectToWhatsApp, connect_try,
    connect_catch, set_sock, set_retryCount, set_isConnecting, set_sessionFiles.
  repeat exit_checked_step.
Qed.

Lemma boot_policy_kept env files : policy_kept (boot env files).
Proof.
  unfold policy_kept, boot.
  destruct (initialize_keeps_policy env (fresh files)) as [H1 H2];
    [by unfold within_budget, MAX_RETRIES|].
  pose proof (initialize_exit_checked env (fresh files)) as H3.
  destruct (initialize env (fresh files)) as [[r s] t]. simpl in *.
  split; [done|]. split; [done|].
  destruct r as [a|e|code]; [by left..|].
  right. by rewrite (H3 code eq_refl).
Qed.

Lemma deliver_policy_kept env e p : policy_kept p → policy_kept (deliver env e p).
Proof.
  intros Hp. pose proof Hp as (H1 & H2 & _). unfold deliver.
  destruct (exited p); [exact Hp|].
  destruct (listener_keeps_policy env e (vars p) H1) as [H4 H5].
  pose proof (listener_exit_checked env e (vars p)) as H6.
  assert (Hturn : ∀ k, policy_kept
    (let '(r, s, t) := try_catch (listener env e) rejection (vars p) in
     {| vars := s;
        exited := match r with Exit code => Some code | _ => None end;
        timers := k t; calls := calls p ++ t |})).
  { intros k.
    destruct (try_catch (listener env e) rejection (vars p)) as [[r s] t].
    simpl in *. split; [done|]. split; [by apply Forall_app|].
    destruct r as [a|err|code]; simpl; [by left..|].
    right. by rewrite (H6 code eq_refl). }
  destruct e; try apply (Hturn (λ t, (timers p + length (filter is_setTimeout t))%nat)).
  destruct (timers p) as [|k] eqn:Hk; [done|].
  apply (Hturn (λ t, (pred (S k) + length (filter is_setTimeout t))%nat)).
Qed.

Lemma run_policy_kept env events : ∀ p, policy_kept p → policy_kept (run env events p).
Proof.
  induction events as [|e rest IH]; intros p Hp; [done|].
  change (run env (e :: rest) p) with (run env rest (deliver env e p)).
  by apply IH, deliver_policy_kept.
Qed.

(** X1: whatever the environment does and whatever events arrive, the
    counter of a process started by [initialize] stays between 0 and
    [MAX_RETRIES]: neither closes nor failed connects push it past 5. *)
Theorem retry_counter_stays_within_budget env files (events : list Event) :
  0 ≤ retryCount (vars (run env events (boot env files))) ≤ 5.
Proof.
  destruct (run_policy_kept env events (boot env files) (boot_policy_kept env files))
    as (H & _). exact H.
Qed.

(** X2: every timer the program ever sets is set 5000 ms ahead, on the
    first retry as on the last. *)
Theorem reconnect_delay_is_fixed env files (events : list Event) (ms : Z) :
  setTimeout ms ∈ calls (run env events (boot env files)) →
  ms = 5000.
Proof.
  intros Hin.
  destruct (run_policy_kept env events (boot env files) (boot_policy_kept env files))
    as (_ & H & _).
  by apply (proj1 (Forall_forall _ _) H _ Hin).
Qed.

Lemma reconnect_delay_is_fixed_witness :
  setTimeout 5000 ∈ calls (run quiet_env five_drops (boot quiet_env ∅)) ∧
  5000 = 5000.
Proof.
  assert (Hin : setTimeout 5000 ∈ calls (run quiet_env five_drops (boot quiet_env ∅))).
  { apply list_elem_of_In. vm_compute. do 15 right. by left. }
  split; [exact Hin|].
  exact (reconnect_delay_is_fixed quiet_env ∅ five_drops 5000 Hin).
Defined.

(** X3: the program exits with status 1 and no other: every call of
    [process.exit] it makes passes 1, and so a process that has exited has
    status 1. *)
Theorem exit_status_is_one env files (events : list Event) (code : Z) :
  process_exit code ∈ calls (run env events (boot env files)) ∨
  exited (run env events (boot env files)) = Some code →
  code = 1.
Proof.
  destruct (run_policy_kept env events (boot env files) (boot_policy_kept env files))
    as (_ & H & Hx).
  intros [Hin|Hcode].
  - by apply (proj1 (Forall_forall _ _) H _ Hin).
  - rewrite Hcode in Hx. by destruct Hx as [|[= ->]].
Qed.

Lemma exit_status_is_one_witness :
  exited (run quiet_env six_drops (boot quiet_env ∅)) = Some 1 ∧ 1 = 1.
Proof.
  split; [by vm_compute|].
  apply (exit_status_is_one quiet_env ∅ six_drops 1). right. by vm_compute.
Defined.

Lemma shouldReconnect_false env code :
  shouldReconnect env code = false ↔ code = Some (loggedOut env).
Proof.
  unfold shouldReconnect. destruct code as [c|]; [|done].
  rewrite negb_false_iff, Z.eqb_eq. split; [by intros ->|by intros [= ->]].
Qed.

(** X4: a close ends a running process exactly when its status code is
    [DisconnectReason.loggedOut] or the counter has reached [MAX_RETRIES];
    a close without a status code counts as any other.  Otherwise the
    counter goes up by one and one timer is added.  Either way
    [isConnecting] is cleared. *)
Theorem close_exits_iff_loggedOut_or_exhausted env code (p : Process) :
  exited p = None →
  let q := deliver env (connection_update (Some "close") code) p in
  (exited q = Some 1 ↔ code = Some (loggedOut env) ∨ 5 ≤ retryCount (vars p)) ∧
  (exited q = None ↔ code ≠ Some (loggedOut env) ∧ retryCount (vars p) < 5) ∧
  (exited q = None →
   retryCount (vars q) = retryCount (vars p) + 1 ∧ timers q = S (timers p)) ∧
  isConnecting (vars q) = false.
Proof.
  intros Hx q. unfold q.
  destruct (shouldReconnect env code && shouldRetry (retryCount (vars p))) eqn:Hb.
  - apply andb_true_iff in Hb as [Hcode Hn].
    rewrite deliver_close_retry by done. simpl.
    apply shouldRetry_true in Hn.
    assert (code ≠ Some (loggedOut env)).
    { intros Heq. apply shouldReconnect_false in Heq. congruence. }
    repeat split; try done; try lia. intros [?|?]; [done|lia].
  - rewrite deliver_close_exit by done. simpl.
    apply andb_false_iff in Hb as [Hcode|Hn].
    + apply shouldReconnect_false in Hcode.
      repeat split; try done; auto. by intros [? _].
    + apply shouldRetry_false in Hn.
      repeat split; try done; auto. intros [_ ?]. lia.
Qed.

Lemma close_exits_iff_loggedOut_or_exhausted_witness :
  let p := boot quiet_env ∅ in
  let q := deliver quiet_env (connection_update (Some "close") None) p in
  exited p = None ∧
  exited q = None ∧ retryCount (vars q) = 1 ∧ timers q = 1%nat.
Proof.
  split; [reflexivity|].
  pose proof (close_exits_iff_loggedOut_or_exhausted quiet_env None (boot quiet_env ∅)
                eq_refl) as (_ & Hrun & Hstep & _).
  assert (Hq : exited (deliver quiet_env (connection_update (Some "close") None)
                         (boot quiet_env ∅)) = None).
  { apply Hrun. split; [discriminate|reflexivity]. }
  split; [exact Hq|]. exact (Hstep Hq).
Defined.

(** X5: a [connection.update] whose [connection] is neither ['close'] nor
    ['open'] (['connecting'], or an update that carries only a QR code)
    changes nothing and makes no call. *)
Theorem other_connection_updates_are_ignored env connection code (p : Process) :
  connection ≠ Some "close" →
  connection ≠ Some "open" →
  deliver env (connection_update connection code) p = p.
Proof.
  intros Hclose Hopen. unfold deliver.
  destruct (exited p) eqn:Hx; [done|]. simpl.
  unfold try_catch. rewrite on_connection_update_other by done.
  destruct p as [s x k t]. simpl in *. f_equal; [done|lia|apply app_nil_r].
Qed.

Lemma other_connection_updates_are_ignored_witness :
  deliver quiet_env (connection_update (Some "connecting") None) (boot quiet_env ∅)
  = boot quiet_env ∅ ∧
  deliver quiet_env (connection_update None None) (boot quiet_env ∅)
  = boot quiet_env ∅.
Proof.
  split; apply (other_connection_updates_are_ignored quiet_env); discriminate.
Defined.

(** ** Connects that fail *)

Lemma transport_calls_quiet t :
  Forall (λ c, is_transport_call c = true) t →
  filter is_setTimeout t = [] ∧ filter is_process_exit t = [] ∧
  filter is_boot_step t = [].
Proof.
  induction 1 as [|c t Hc _ (IH1 & IH2 & IH3)]; [done|].
  rewrite !filter_cons, IH1, IH2, IH3. by destruct c.
Qed.

Lemma connect_failure env s e s1 t1 :
  isConnecting s = false →
  connect_try env (with_isConnecting true s) = (Throw e, s1, t1) →
  connectToWhatsApp env s
  = (if shouldRetry (retryCount s) then
       (Ret None, retried s1, t1 ++ [logger_error "Connection error:"; setTimeout 5000])
     else
       (Exit 1, with_isConnecting false s1,
        t1 ++ [logger_error "Connection error:"; process_exit 1])) ∧
  retryCount s1 = retryCount s ∧
  initialConnection s1 = initialConnection s ∧
  Forall (λ c, is_transport_call c = true) t1.
Proof.
  intros Hc Htry.
  destruct (connect_try_preserves env
              (λ x, retryCount x = retryCount s ∧ initialConnection x = initialConnection s))
    with (s := with_isConnecting true s) as [Hn1 Ht1]; [by intros ? []|by intros ?? []|done|].
  rewrite Htry in Hn1, Ht1. simpl in Hn1, Ht1. destruct Hn1 as [Hn1 Hi1].
  split; [|done].
  unfold connectToWhatsApp. cbv [mbind M_bind bind get]. rewrite Hc.
  cbv [set_isConnecting modify try_catch]. rewrite Htry.
  rewrite connect_catch_eq, Hn1.
  by destruct (shouldRetry (retryCount s)).
Qed.

Lemma deliver_timeout_failure env p k :
  never_connects env →
  exited p = None →
  isConnecting (vars p) = false →
  timers p = S k →
  let q := deliver env timeout p in
  if shouldRetry (retryCount (vars p)) then
    exited q = None ∧ retryCount (vars q) = retryCount (vars p) + 1 ∧
    isConnecting (vars q) = false ∧ timers q = S k ∧ exits q = exits p
  else exited q = Some 1 ∧ exits q = S (exits p).
Proof.
  intros Hnever Hx Hc Hk q. unfold q, deliver. rewrite Hx, Hk.
  destruct (Hnever (with_isConnecting true (vars p))) as [e He].
  destruct (connect_try env (with_isConnecting true (vars p))) as [[r s1] t1] eqn:Htry.
  simpl in He. subst r.
  destruct (connect_failure env (vars p) e s1 t1 Hc Htry) as (Hconn & Hn1 & _ & Ht1).
  destruct (transport_calls_quiet t1 Ht1) as (Hq1 & Hq2 & _).
  unfold listener. cbv [try_catch mbind M_bind bind]. rewrite Hconn.
  destruct (shouldRetry (retryCount (vars p))); simpl.
  - rewrite app_nil_r. unfold exits. simpl.
    rewrite !filter_app, !length_app, Hq1, Hq2. simpl.
    repeat split; [lia..].
  - unfold exits. simpl.
    rewrite !filter_app, !length_app, Hq2. simpl. split; [done|lia].
Qed.

Lemma failed_connects_consume_budget env (n : nat) : ∀ p,
  never_connects env →
  exited p = None →
  isConnecting (vars p) = false →
  0 ≤ retryCount (vars p) ≤ 5 →
  (0 < timers p)%nat →
  let q := run env (replicate n timeout) p in
  if decide (retryCount (vars p) + Z.of_nat n ≤ 5) then
    exited q = None ∧ retryCount (vars q) = retryCount (vars p) + Z.of_nat n ∧
    timers q = timers p ∧ exits q = exits p
  else exited q = Some 1 ∧ exits q = S (exits p).
Proof.
  induction n as [|n IH]; intros p Hnever Hx Hc Hr Hk.
  { change (run env (replicate 0 timeout) p) with p. cbv zeta.
    case_decide; [|lia]. repeat split; [done|lia]. }
  change (run env (replicate (S n) timeout) p)
    with (run env (replicate n timeout) (deliver env timeout p)).
  cbv zeta.
  destruct (timers p) as [|k] eqn:Hk'; [lia|].
  pose proof (deliver_timeout_failure env p k Hnever Hx Hc Hk') as Hstep.
  cbv zeta in Hstep.
  destruct (shouldRetry (retryCount (vars p))) eqn:Hb.
  - apply shouldRetry_true in Hb.
    destruct Hstep as (Hx1 & Hr1 & Hc1 & Hk1 & He1).
    specialize (IH (deliver env timeout p) Hnever Hx1 Hc1 ltac:(lia) ltac:(lia)).
    cbv zeta in IH. rewrite Hr1, Hk1, He1 in IH.
    repeat case_decide; try lia; [|done].
    destruct IH as (? & ? & ? & ?). repeat split; [done|lia|done..].
  - apply shouldRetry_false in Hb. destruct Hstep as [Hx1 He1].
    rewrite run_exited by (by rewrite Hx1).
    case_decide; [lia|done].
Qed.

(** X6: when the transport can never be built, each reconnect timer that
    fires while no connect is in flight costs one unit of the budget and
    sets the next timer; the failure met with the counter at 5 ends in
    [process.exit(1)], called once.  The program cannot redial for ever. *)
Theorem unreachable_endpoint_exhausts_budget env (n : nat) (p : Process) :
  never_connects env →
  exited p = None →
  isConnecting (vars p) = false →
  0 ≤ retryCount (vars p) ≤ 5 →
  (0 < timers p)%nat →
  let q := run env (replicate n timeout) p in
  (retryCount (vars p) + Z.of_nat n ≤ 5 →
   exited q = None ∧ retryCount (vars q) = retryCount (vars p) + Z.of_nat n ∧
   timers q = timers p ∧ exits q = exits p) ∧
  (5 < retryCount (vars p) + Z.of_nat n →
   exited q = Some 1 ∧ exits q = S (exits p)).
Proof.
  intros Hnever Hx Hc Hr Hk q.
  pose proof (failed_connects_consume_budget env n p Hnever Hx Hc Hr Hk) as H.
  cbv zeta in H. fold q in H.
  split; intros Hn; case_decide; try lia; done.
Qed.

Lemma unreachable_env_never_connects : never_connects unreachable_env.
Proof. intros s. by eexists. Qed.

Lemma unreachable_endpoint_exhausts_budget_witness :
  let p := boot unreachable_env ∅ in
  (exited p = None ∧ isConnecting (vars p) = false ∧
   retryCount (vars p) = 1 ∧ timers p = 1%nat ∧ exits p = 0%nat) ∧
  (exited (run unreachable_env (replicate 4 timeout) p) = None ∧
   retryCount (vars (run unreachable_env (replicate 4 timeout) p)) = 5) ∧
  (exited (run unreachable_env (replicate 5 timeout) p) = Some 1 ∧
   exits (run unreachable_env (replicate 5 timeout) p) = 1%nat).
Proof.
  split; [by vm_compute|]. split.
  - destruct (proj1 (unreachable_endpoint_exhausts_budget unreachable_env 4
                       (boot unreachable_env ∅) unreachable_env_never_connects
                       eq_refl eq_refl ltac:(by vm_compute) ltac:(vm_compute; lia)))
      as (H1 & H2 & _); [by vm_compute|].
    split; [exact H1|exact H2].
  - apply (proj2 (unreachable_endpoint_exhausts_budget unreachable_env 5
                    (boot unreachable_env ∅) unreachable_env_never_connects
                    eq_refl eq_refl ltac:(by vm_compute) ltac:(vm_compute; lia))).
    by vm_compute.
Defined.

(** ** Booting *)

Lemma bind_call {B} env c (k : unit → M B) s :
  (call env c ≫= k) s
  = match throws env (tick s) c with
    | None => let '(r, s2, t2) := k tt (tock s) in (r, s2, c :: t2)
    | Some e => (Throw e, tock s, [c])
    end.
Proof.
  unfold mbind, M_bind, bind, call.
  by destruct (throws env (tick s) c).
Qed.

Lemma bind_returns {A B} (m : M A) (k : A → M B) s a s1 t1 :
  m s = (Ret a, s1, t1) →
  (m ≫= k) s = let '(r, s2, t2) := k a s1 in (r, s2, t1 ++ t2).
Proof. intros Hm. unfold mbind, M_bind, bind. by rewrite Hm. Qed.

Lemma inner_calls_quiet t :
  Forall inner_call t →
  filter is_boot_step t = [] ∧ filter is_setTimeout t = [] ∧
  filter is_process_exit t = [].
Proof.
  induction 1 as [|c t (H1 & H2 & H3) _ (IH1 & IH2 & IH3)]; [done|].
  rewrite !filter_cons, IH1, IH2, IH3, H1, H2, H3. done.
Qed.

Lemma processSessionData_at_boot env s :
  ∃ b s' t, processSessionData env s = (Ret b, s', t) ∧
            same_connection s s' ∧ Forall inner_call t.
Proof.
  destruct (processSessionData_returns env s) as (b & s' & t & Hr).
  exists b, s', t. split; [done|].
  assert (Hp : preserves (same_connection s) inner_call (processSessionData env)).
  { unfold processSessionData.
    destruct (SESSION_DATA env) as [[|a blob]|]; [apply preserves_ret| |apply preserves_ret].
    repeat preserves_step. }
  destruct (Hp s) as [H1 H2]; [done|]. by rewrite Hr in H1, H2.
Qed.









Lemma initialize_with_failed_connect env s0 :
  boots env →
  never_connects env →
  isConnecting s0 = false →
  retryCount s0 = 0 →
  ∃ s t, initialize env s0 = (Ret tt, s, t) ∧
         retryCount s = 1 ∧ isConnecting s = false ∧
         initialConnection s = initialConnection s0 ∧
         filter is_setTimeout t = [setTimeout 5000] ∧
         filter is_boot_step t = boot_steps ∧
         last t = Some startServer.
Proof.
  intros Hb Hnever Hc Hn. unfold initialize, try_catch.
  do 3 (rewrite bind_call, Hb by done; cbv beta).
  destruct (processSessionData_at_boot env (tock (tock (tock s0))))
    as (b & s1 & t1 & Hpsd & (_ & Hi1 & Hc1 & Hn1) & Ht1).
  destruct (inner_calls_quiet t1 Ht1) as (Hb1 & Hq1 & _).
  rewrite (bind_returns _ _ _ _ _ _ Hpsd).
  do 2 (rewrite bind_call, Hb by done; cbv beta).
  destruct (Hnever (with_isConnecting true (tock (tock s1)))) as [e He].
  destruct (connect_try env (with_isConnecting true (tock (tock s1))))
    as [[r s2] t2] eqn:Htry.
  simpl in He. subst r.
  destruct (connect_failure env (tock (tock s1)) e s2 t2) as (Hconn & Hn2 & Hi2 & Ht2);
    [simpl; rewrite Hc1; exact Hc|done|].
  destruct (transport_calls_quiet t2 Ht2) as (Hq2 & _ & Hb2).
  assert (Hretry : shouldRetry (retryCount (tock (tock s1))) = true).
  { apply shouldRetry_true. simpl. rewrite Hn1. simpl. lia. }
  rewrite Hretry in Hconn.
  rewrite (bind_returns _ _ _ _ _ _ Hconn). unfold call. rewrite Hb by done.
  eexists _, _. split; [reflexivity|]. simpl.
  rewrite Hn2. simpl. rewrite Hn1. simpl. rewrite Hn.
  split; [done|]. split; [done|]. split; [by rewrite Hi2|].
  rewrite !filter_cons. simpl. rewrite !filter_app, Hb1, Hq1. simpl.
  rewrite !filter_cons. simpl. rewrite !filter_app, Hb2, Hq2. simpl.
  split; [done|]. split; [done|].
  rewrite !app_comm_cons, !app_assoc. apply last_snoc.
Qed.

(** X8: a first connect that fails does not abort the boot.  When no step
    of [initialize] throws and the transport cannot be built, the process
    is left running with all six steps done, the server start last, the
    counter at 1, [isConnecting] cleared and one reconnect timer set. *)
Theorem failed_first_connect_does_not_abort_boot env files :
  boots env →
  never_connects env →
  let p := boot env files in
  exited p = None ∧ retryCount (vars p) = 1 ∧ isConnecting (vars p) = false ∧
  timers p = 1%nat ∧ filter is_boot_step (calls p) = boot_steps ∧
  last (calls p) = Some startServer.
Proof.
  intros Hb Hnever.
  destruct (initialize_with_failed_connect env (fresh files) Hb Hnever eq_refl eq_refl)
    as (s & t & Hinit & Hn & Hc & _ & Hq & Hsteps & Hlast).
  unfold boot. rewrite Hinit. simpl. by rewrite Hq.
Qed.

Lemma failed_first_connect_does_not_abort_boot_witness :
  let p := boot unreachable_env old_session in
  exited p = None ∧ retryCount (vars p) = 1 ∧ isConnecting (vars p) = false ∧
  timers p = 1%nat ∧ filter is_boot_step (calls p) = boot_steps ∧
  last (calls p) = Some startServer.
Proof.
  apply (failed_first_connect_does_not_abort_boot unreachable_env old_session).
  - by intros t [].
  - exact unreachable_env_never_connects.
Defined.

(** ** Failures of the handlers *)




Lemma prefix_spec (needle text : string) :
  String.prefix needle text = true ↔ ∃ after, text = needle +:+ after.
Proof.
  revert text. induction needle as [|a needle IH]; intros text.
  { split; [by exists text|by destruct text]. }
  destruct text as [|b text]; simpl.
  { split; [done|by intros [? ?]]. }
  destruct (Ascii.ascii_dec a b) as [->|Hne].
  - rewrite IH. split; intros [after H]; exists after.
    + by rewrite H.
    + simpl in H. by injection H.
  - split; [done|]. intros [after H]. simpl in H. by injection H.
Qed.

Lemma includes_spec (needle text : string) :
  includes needle text = true ↔ contains needle text.
Proof.
  unfold contains. induction text as [|b text IH].
  - change (includes needle "") with (String.prefix needle "" || false).
    rewrite orb_false_r, prefix_spec. split.
    + intros [after H]. by exists "", after.
    + intros (before & after & H). destruct before; [by exists after|done].
  - change (includes needle (String b text))
      with (String.prefix needle (String b text) || includes needle text).
    rewrite orb_true_iff, IH. split.
    + intros [H|(before & after & ->)].
      * apply prefix_spec in H as [after H]. by exists "", after.
      * by exists (String b before), after.
    + intros (before & after & H). destruct before as [|c before].
      * left. apply prefix_spec. by exists after.
      * right. exists before, after. simpl in H. by injection H.
Qed.

(** X10: a listener that rejects with [error] has the rejection logged by
    the [unhandledRejection] handler.  The process ends, with status 1,
    exactly when [error.message] is a string that contains
    ['Session closed'], or is another value whose [includes] answers yes,
    or when the handler itself throws, [error] being [null] or [undefined]
    or its message having no [includes]: the [uncaughtException] handler
    then logs and exits.  On every other rejection the process runs on. *)
Theorem rejection_exits_iff_fatal env (e : Event) (p : Process) error s t :
  exited p = None →
  is_timeout e = false →
  listener env e (vars p) = (Throw error, s, t) →
  let q := deliver env e p in
  (exited q = Some 1 ↔ fatal error) ∧
  (exited q = None ↔ ¬ fatal error) ∧
  vars q = s ∧
  calls q = calls p ++ t ++ logger_error "Unhandled rejection:" ::
            match error with
            | nullish | thrown (other_message None) =>
                [logger_error "Uncaught exception:"; process_exit 1]
            | _ => match exited q with
                   | Some code => [process_exit code]
                   | None => []
                   end
            end.
Proof.
  intros Hx He Hl q.
  assert (Hq : q = let '(r, s, t) := try_catch (listener env e) rejection (vars p) in
                   {| vars := s;
                      exited := match r with Exit code => Some code | _ => None end;
                      timers := (timers p + length (filter is_setTimeout t))%nat;
                      calls := calls p ++ t |}).
  { unfold q, deliver. rewrite Hx. by destruct e. }
  unfold try_catch in Hq. rewrite Hl in Hq.
  unfold rejection, unhandledRejection, uncaughtException in Hq.
  cbv [mbind M_bind bind mret M_ret ret emit exit throw try_catch] in Hq.
  destruct error as [|[|text|[[]|]]]; simpl in Hq.
  - rewrite Hq. simpl. intuition (try done; try congruence).
  - rewrite Hq. simpl. intuition (try done; try congruence).
  - destruct (includes "Session closed" text) eqn:Hi; simpl in Hq; rewrite Hq; simpl.
    + apply includes_spec in Hi. intuition (try done; try congruence).
    + assert (¬ contains "Session closed" text).
      { intros Hc. apply includes_spec in Hc. congruence. }
      intuition (try done; try congruence).
  - rewrite Hq. simpl. intuition (try done; try congruence).
  - rewrite Hq. simpl. intuition (try done; try congruence).
  - rewrite Hq. simpl. intuition (try done; try congruence).
Qed.

Lemma rejection_exits_iff_fatal_witness :
  let p := boot closed_session_env ∅ in
  let q := deliver closed_session_env (group_participants_update one_joined) p in
  let p' := boot failing_group_handler_env ∅ in
  let q' := deliver failing_group_handler_env (groups_update ["g1"; "g2"]) p' in
  let p'' := boot empty_rejection_env ∅ in
  let q'' := deliver empty_rejection_env (groups_update ["g1"; "g2"]) p'' in
  (exited p = None ∧ exited q = Some 1) ∧
  (exited p' = None ∧ exited q' = None) ∧
  (exited p'' = None ∧ exited q'' = Some 1).
Proof.
  split; [|split].
  - split; [reflexivity|].
    apply (proj1 (rejection_exits_iff_fatal closed_session_env
                    (group_participants_update one_joined) (boot closed_session_env ∅)
                    (new_Error "Error: Session closed, reconnect")
                    (tock (vars (boot closed_session_env ∅)))
                    [handleGroupParticipantsUpdate (Some 0%nat) one_joined]
                    eq_refl eq_refl ltac:(by vm_compute))).
    by exists "Error: ", ", reconnect".
  - split; [reflexivity|].
    apply (proj1 (proj2 (rejection_exits_iff_fatal failing_group_handler_env
                    (groups_update ["g1"; "g2"]) (boot failing_group_handler_env ∅)
                    (new_Error "boom")
                    (tock (vars (boot failing_group_handler_env ∅)))
                    [handleGroupUpdate (Some 0%nat) "g1"]
                    eq_refl eq_refl ltac:(by vm_compute)))).
    intros Hc. apply includes_spec in Hc. by vm_compute in Hc.
  - split; [reflexivity|].
    by apply (proj1 (rejection_exits_iff_fatal empty_rejection_env
                    (groups_update ["g1"; "g2"]) (boot empty_rejection_env ∅)
                    nullish
                    (tock (vars (boot empty_rejection_env ∅)))
                    [handleGroupUpdate (Some 0%nat) "g1"]
                    eq_refl eq_refl ltac:(by vm_compute))).
Defined.

(** ** Batches in order *)

Lemma route_message_quiet env msg s :
  handlers_return env →
  route_message env msg s
  = (Ret tt, tock (tock s),
     [handleMessage (sock s) msg; handleEvent (sock s) (Ev_message msg)]).
Proof.
  intros Hr. unfold route_message, call. unfold_m.
  by rewrite !Hr.
Qed.

(** X11: when no handler throws, a ['notify'] batch hands every message
    first to the message handler and then to the generic event handler,
    message after message in the order of the batch, with the socket the
    module-level variable holds; the listener makes no other call. *)
Theorem notify_batch_routes_in_order env (messages : list WAMessage) s :
  handlers_return env →
  on_messages_upsert env messages "notify" s
  = (Ret tt, Nat.iter (2 * length messages) tock s, message_calls (sock s) messages).
Proof.
  intros Hr. revert s. induction messages as [|msg rest IH]; intros s; [done|].
  rewrite notify_batch_cons, route_message_quiet, IH by done.
  simpl. f_equal. f_equal.
  replace (length rest + S (length rest + 0))%nat with (S (2 * length rest)) by lia.
  by rewrite <- !Nat.iter_succ_r.
Qed.

Lemma notify_batch_routes_in_order_witness :
  (on_messages_upsert quiet_env ["m1"; "m2"] "notify" (vars (boot quiet_env ∅))).2
  = [handleMessage (Some 0%nat) "m1"; handleEvent (Some 0%nat) (Ev_message "m1");
     handleMessage (Some 0%nat) "m2"; handleEvent (Some 0%nat) (Ev_message "m2")].
Proof.
  rewrite (notify_batch_routes_in_order quiet_env ["m1"; "m2"] (vars (boot quiet_env ∅))).
  - reflexivity.
  - by intros t c.
Defined.



(** ** The socket the handlers are given *)




(** ** One socket, five listeners *)

(** X14: a call of [connectToWhatsApp] makes its transport calls in the
    order of the source and each at most once: the credentials, the
    version, one socket, then the five listeners, one per event name.  It
    returns a socket only when the guard was open and all of them have gone
    through; the socket is then a new one, the variable [sock] holds it,
    [isConnecting] is still set and the counter is as it was. *)
Theorem connect_subscribes_once env s :
  let '(r, s', t) := connectToWhatsApp env s in
  filter is_transport_call t `prefix_of` transport_calls ∧
  ∀ sk, r = Ret (Some sk) →
        isConnecting s = false ∧ t = transport_calls ∧
        sk = next_sock (sock s) ∧ sock s' = Some sk ∧
        isConnecting s' = true ∧ retryCount s' = retryCount s.
Proof.
  unfold connectToWhatsApp, connect_try, connect_catch, call. unfold_m.
  destruct (isConnecting s) eqn:Hc; simpl.
  { split; [apply prefix_nil|done]. }
  destruct (throws env _ useMultiFileAuthState); simpl;
    [destruct (shouldRetry _); simpl; (split; [by eexists|done])|].
  destruct (throws env _ fetchLatestBaileysVersion); simpl;
    [destruct (shouldRetry _); simpl; (split; [by eexists|done])|].
  destruct (throws env _ makeWASocket); simpl;
    [destruct (shouldRetry _); simpl; (split; [by eexists|done])|].
  destruct (throws env _ (ev_on "connection.update")); simpl;
    [destruct (shouldRetry _); simpl; (split; [by eexists|done])|].
  destruct (throws env _ (ev_on "creds.update")); simpl;
    [destruct (shouldRetry _); simpl; (split; [by eexists|done])|].
  destruct (throws env _ (ev_on "messages.upsert")); simpl;
    [destruct (shouldRetry _); simpl; (split; [by eexists|done])|].
  destruct (throws env _ (ev_on "group-participants.update")); simpl;
    [destruct (shouldRetry _); simpl; (split; [by eexists|done])|].
  destruct (throws env _ (ev_on "groups.update")); simpl;
    [destruct (shouldRetry _); simpl; (split; [by eexists|done])|].
  split; [by exists []|]. by intros sk [= <-].
Qed.

(** ** The credential directory *)

Lemma listener_makes_no_fs_call env e :
  preserves (λ _, True) (λ c, is_fs_call c = false)
    (try_catch (listener env e) rejection).
Proof.
  apply preserves_try_catch.
  - destruct e; simpl;
      unfold on_connection_update, sendStartupMessage, on_messages_upsert,
        route_message, on_group_participants_update, on_groups_update,
        route_group_update, connectToWhatsApp, connect_try, connect_catch;
      cbv zeta; repeat preserves_step.
  - intros err. unfold rejection, unhandledRejection, uncaughtException.
    repeat preserves_step.
Qed.

Lemma no_fs_call_filter t : Forall (λ c, is_fs_call c = false) t → filter is_fs_call t = [].
Proof.
  induction 1 as [|c t Hc _ IH]; [done|].
  by rewrite filter_cons, IH, Hc.
Qed.

Lemma deliver_makes_no_fs_call env e p :
  filter is_fs_call (calls (deliver env e p)) = filter is_fs_call (calls p).
Proof.
  unfold deliver. destruct (exited p); [done|].
  destruct (listener_makes_no_fs_call env e (vars p) I) as [_ H].
  assert (Hturn : ∀ k,
    filter is_fs_call (calls
      (let '(r, s, t) := try_catch (listener env e) rejection (vars p) in
       {| vars := s;
          exited := match r with Exit code => Some code | _ => None end;
          timers := k t; calls := calls p ++ t |})) = filter is_fs_call (calls p)).
  { intros k.
    destruct (try_catch (listener env e) rejection (vars p)) as [[r s] t].
    simpl in *. by rewrite filter_app, (no_fs_call_filter t H), app_nil_r. }
  destruct e; try apply (Hturn (λ t, (timers p + length (filter is_setTimeout t))%nat)).
  destruct (timers p) as [|k] eqn:Hk; [done|].
  apply (Hturn (λ t, (pred (S k) + length (filter is_setTimeout t))%nat)).
Qed.

Lemma boot_without_blob_makes_no_fs_call env files :
  no_blob env → filter is_fs_call (calls (boot env files)) = [].
Proof.
  intros Hblob.
  assert (Hp : preserves (λ _, True) (λ c, is_fs_call c = false) (initialize env)).
  { unfold initialize, processSessionData, connectToWhatsApp, connect_try, connect_catch.
    destruct Hblob as [-> | ->]; repeat preserves_step. }
  destruct (Hp (fresh files) I) as [_ H]. unfold boot.
  destruct (initialize env (fresh files)) as [[r s] t]. simpl in *.
  by apply no_fs_call_filter.
Qed.

(** X15: the listeners never touch the credential directory: whatever
    events arrive, the calls of [fs.emptyDir] and [fs.writeJSON] a process
    has made are those of its boot.  With [SESSION_DATA] unset or empty
    there are none at all. *)
Theorem only_the_bootstrap_writes_credentials env files (events : list Event) :
  filter is_fs_call (calls (run env events (boot env files)))
  = filter is_fs_call (calls (boot env files)) ∧
  (no_blob env → filter is_fs_call (calls (run env events (boot env files))) = []).
Proof.
  assert (Hrun : ∀ p, filter is_fs_call (calls (run env events p)) = filter is_fs_call (calls p)).
  { induction events as [|e rest IH]; intros p; [done|].
    change (run env (e :: rest) p) with (run env rest (deliver env e p)).
    by rewrite IH, deliver_makes_no_fs_call. }
  split; [apply Hrun|]. intros Hblob.
  by rewrite Hrun, boot_without_blob_makes_no_fs_call.
Qed.

Lemma only_the_bootstrap_writes_credentials_witness :
  no_blob quiet_env ∧
  filter is_fs_call (calls (run quiet_env six_drops (boot quiet_env old_session))) = [] ∧
  filter is_fs_call (calls (run (session_env "{new}") six_drops
                              (boot (session_env "{new}") old_session)))
  = [fs_emptyDir; fs_writeJSON "creds.json" "{new}"].
Proof.
  split; [by left|]. split.
  - apply (proj2 (only_the_bootstrap_writes_credentials quiet_env old_session six_drops)).
    by left.
  - rewrite (proj1 (only_the_bootstrap_writes_credentials (session_env "{new}")
                      old_session six_drops)).
    reflexivity.
Defined.

(** X16: the replacement of the credentials is not atomic.  When the blob
    is valid and [fs.emptyDir] has gone through but [fs.writeJSON] throws,
    [processSessionData] logs, returns [false], and every file the
    directory held besides [creds.json] is gone. *)
Theorem failed_write_loses_old_credentials env (blob text : string) (data : JSON) s e :
  SESSION_DATA env = Some blob →
  blob ≠ "" →
  base64_toString env blob = inr text →
  JSON_parse env text = inr data →
  throws env (tick s) fs_emptyDir = None →
  throws env (S (tick s)) (fs_writeJSON "creds.json" data) = Some e →
  ∃ s', processSessionData env s
        = (Ret false, s',
           [fs_emptyDir; fs_writeJSON "creds.json" data;
            logger_error "Session data processing failed:"]) ∧
        ∀ file, file ≠ "creds.json" → sessionFiles s' !! file = None.
Proof.
  intros Hblob Hne Hdec Hparse He Hw.
  unfold processSessionData. rewrite Hblob.
  destruct blob as [|a blob]; [done|].
  unfold call. unfold_m. rewrite Hdec. simpl. rewrite Hparse. simpl.
  rewrite He. simpl. rewrite Hw. simpl.
  eexists. split; [reflexivity|]. by intros file _.
Qed.

Lemma failed_write_loses_old_credentials_witness :
  old_session !! "pre-key-1.json" = Some "{key}" ∧
  ∃ s', processSessionData full_disk_env (fresh old_session)
        = (Ret false, s',
           [fs_emptyDir; fs_writeJSON "creds.json" "{new}";
            logger_error "Session data processing failed:"]) ∧
        sessionFiles s' !! "pre-key-1.json" = None.
Proof.
  split; [reflexivity|].
  destruct (failed_write_loses_old_credentials full_disk_env "{new}" "{new}" "{new}"
              (fresh old_session) (new_Error "ENOSPC")
              eq_refl ltac:(discriminate) eq_refl eq_refl eq_refl eq_refl)
    as (s' & Hs' & Hgone).
  exists s'. split; [exact Hs'|]. apply Hgone. discriminate.
Defined.

(** ** A timer that outlives its outage *)

(** X17: [isConnecting] guards only the span from a connect to the next
    [open] or [close].  A reconnect timer still pending when the socket
    reports [open] fires all the same: where the transport can be built,
    and the process has not ended on that open, it makes a second socket
    and subscribes again, and sets [isConnecting]. *)
Theorem pending_timer_reconnects_after_open env code (p : Process) :
  connects env →
  exited p = None →
  (0 < timers p)%nat →
  let p1 := deliver env (connection_update (Some "open") code) p in
  exited p1 = None →
  let q := deliver env timeout p1 in
  exited q = None ∧
  calls q = calls p1 ++ transport_calls ∧
  sock (vars q) = Some (next_sock (sock (vars p))) ∧
  isConnecting (vars q) = true ∧
  timers q = pred (timers p).
Proof.
  intros Hconn Hx Hk p1 Hx1 q.
  destruct (deliver_open_vars env code p Hx) as (_ & Hc & _ & Hs & Ht).
  fold p1 in Hc, Hs, Ht.
  unfold q. rewrite deliver_timeout by done.
  rewrite Ht. destruct (timers p) as [|k]; [lia|]. rewrite Hc. simpl.
  rewrite Hs. by repeat split.
Qed.

Lemma pending_timer_reconnects_after_open_witness :
  let p := run quiet_env [transient_close; transient_close; timeout] (boot quiet_env ∅) in
  let p1 := deliver quiet_env (connection_update (Some "open") None) p in
  let q := deliver quiet_env timeout p1 in
  (exited p = None ∧ timers p = 1%nat ∧ sock (vars p) = Some 1%nat ∧ exited p1 = None) ∧
  exited q = None ∧
  calls q = calls p1 ++ transport_calls ∧
  sock (vars q) = Some 2%nat ∧
  isConnecting (vars q) = true ∧
  timers q = 0%nat.
Proof.
  split; [by vm_compute|].
  apply (pending_timer_reconnects_after_open quiet_env None
           (run quiet_env [transient_close; transient_close; timeout] (boot quiet_env ∅))).
  - by intros t c.
  - reflexivity.
  - vm_compute. lia.
  - by vm_compute.
Defined.
